(** * apache_combined_log_parser.py: a shallow embedding and its properties

    The script is Python 2.  Its [str] values are byte strings (modelled by
    [string]), its integers are unbounded (modelled by [Z]), its dicts map
    [str] keys to integers (modelled by [gmap string Z]) and are mutable
    objects that may be shared between several [LogResults] instances
    (modelled by a store of dicts addressed by locations). *)

From Stdlib Require Import ZArith Ascii String List Lia Permutation Sorted.
From stdpp Require Import gmap strings list fin_maps sorting.

Local Open Scope string_scope.
Local Open Scope Z_scope.

(** ** Exceptions *)

(** The exceptions the script can raise while it aggregates; none of them
    is caught anywhere in the source. *)
Inductive exception : Type :=
  | IndexError                    (* list/tuple index out of range *)
  | ValueError (msg : string).    (* shlex, int(), urlparse *)

Inductive result (A : Type) : Type :=
  | Ok (a : A)
  | Raise (e : exception).
Arguments Ok {A} a.
Arguments Raise {A} e.

Definition rbind {A B} (r : result A) (k : A -> result B) : result B :=
  match r with
  | Ok a => k a
  | Raise e => Raise e
  end.

#[global] Instance result_bind : MBind result := λ A B k r, rbind r k.
#[global] Instance result_ret : MRet result := @Ok.

Definition is_ok {A} (r : result A) : bool :=
  match r with Ok _ => true | Raise _ => false end.

(** [l[i]] on a Python list or tuple, for a non-negative index. *)
Definition py_index {A} (l : list A) (i : nat) : result A :=
  match nth_error l i with
  | Some x => Ok x
  | None => Raise IndexError
  end.

(** ** The [str] methods the script uses *)

Module PyStr.

(** [c in chars] for a one-character string [c]. *)
Fixpoint char_in (c : ascii) (chars : string) : bool :=
  match chars with
  | EmptyString => false
  | String d rest => Ascii.eqb c d || char_in c rest
  end.

(** C [isspace] in the default locale: space, \t, \n, \v, \f, \r. *)
Definition isspace (c : ascii) : bool :=
  let n := nat_of_ascii c in
  (Nat.eqb n 32 || (Nat.leb 9 n && Nat.leb n 13))%bool.

Definition isdigit (c : ascii) : bool :=
  let n := nat_of_ascii c in (Nat.leb 48 n && Nat.leb n 57)%bool.

(** [s + c]: a character appended to a string. *)
Fixpoint snoc (s : string) (c : ascii) : string :=
  match s with
  | EmptyString => String c EmptyString
  | String d rest => String d (snoc rest c)
  end.

(** [s.startswith(prefix)] *)
Fixpoint startswith (s prefix : string) {struct prefix} : bool :=
  match prefix, s with
  | EmptyString, _ => true
  | String p prefix', String c s' => Ascii.eqb c p && startswith s' prefix'
  | String _ _, EmptyString => false
  end.

(** [sub in s]: substring containment. *)
Fixpoint contains (sub s : string) : bool :=
  startswith s sub ||
  match s with
  | EmptyString => false
  | String _ s' => contains sub s'
  end.

(** [s.split()]: maximal runs of non-whitespace characters.  [cur] is
    the run being read, if any. *)
Fixpoint split_ws_aux (s : string) (cur : option string) : list string :=
  match s with
  | EmptyString =>
      match cur with Some w => [w] | None => [] end
  | String c rest =>
      if isspace c then
        match cur with
        | Some w => w :: split_ws_aux rest None
        | None => split_ws_aux rest None
        end
      else
        split_ws_aux rest (Some (snoc (default EmptyString cur) c))
  end.

Definition split_ws (s : string) : list string := split_ws_aux s None.

(** [s.split(sep)] for a one-character separator: empty fields are kept,
    and the result always has at least one element. *)
Fixpoint split_sep_aux (sep : ascii) (s : string) (cur : string) : list string :=
  match s with
  | EmptyString => [cur]
  | String c rest =>
      if Ascii.eqb c sep then cur :: split_sep_aux sep rest EmptyString
      else split_sep_aux sep rest (snoc cur c)
  end.

Definition split_sep (s : string) (sep : ascii) : list string :=
  split_sep_aux sep s EmptyString.

(** [s.find(c, start)] for a one-character needle: the least index
    [>= start] holding [c], or [None] for Python's [-1]. *)
Fixpoint find_from (s : string) (c : ascii) (start : nat) : option nat :=
  match s with
  | EmptyString => None
  | String d rest =>
      match start with
      | O => if Ascii.eqb d c then Some O else S <$> find_from rest c O
      | S start' => S <$> find_from rest c start'
      end
  end.

(** [s[:n]] and [s[n:]] *)
Fixpoint take (n : nat) (s : string) : string :=
  match n, s with
  | S n', String c rest => String c (take n' rest)
  | _, _ => EmptyString
  end.

Fixpoint drop (n : nat) (s : string) : string :=
  match n, s with
  | S n', String _ rest => drop n' rest
  | _, _ => s
  end.

(** [s[a:b]] for [0 <= a], [0 <= b]. *)
Definition slice (s : string) (a b : nat) : string :=
  take (b - a) (drop a s).

Fixpoint all (p : ascii -> bool) (s : string) : bool :=
  match s with
  | EmptyString => true
  | String c rest => p c && all p rest
  end.

End PyStr.

(** ** [int(s)] on a byte string, base 10

    CPython 2.7 goes through [int_from_string], [PyInt_FromString],
    [PyOS_strtol] and [PyOS_strtoul]: whitespace is skipped, an optional
    sign is taken, whitespace is skipped again ([PyOS_strtoul] skips it
    before the digits, so [int("- 5")] is [-5]), at least one decimal
    digit is read, and whitespace is skipped up to the end of the string.
    Anything else is a [ValueError]; a NUL byte met after a well-formed
    literal is reported with a message of its own.  The result is
    unbounded (Python promotes to [long]).  Of the message of the
    exception only the fixed part is kept, not the [repr] of the string
    that CPython appends. *)

Fixpoint lstrip (s : string) : string :=
  match s with
  | String c rest => if PyStr.isspace c then lstrip rest else s
  | EmptyString => EmptyString
  end.

(** Reads the longest prefix of decimal digits; [acc] is the value read so
    far and [n] the number of digits read. *)
Fixpoint read_digits (s : string) (acc : Z) (n : nat) : Z * nat * string :=
  match s with
  | String c rest =>
      if PyStr.isdigit c
      then read_digits rest (10 * acc + (Z.of_nat (nat_of_ascii c) - 48)) (S n)
      else (acc, n, s)
  | EmptyString => (acc, n, s)
  end.

Definition invalid_literal : exception :=
  ValueError "invalid literal for int() with base 10".

Definition null_byte : exception :=
  ValueError "null byte in argument for int()".

Definition int (s : string) : result Z :=
  let s1 := lstrip s in
  let negative := PyStr.startswith s1 "-" in
  let s2 :=
    if (negative || PyStr.startswith s1 "+")%bool then PyStr.drop 1 s1 else s1 in
  let '(v, n, rest) := read_digits (lstrip s2) 0 O in
  match n with
  | O => Raise invalid_literal
  | S _ =>
      match lstrip rest with
      | EmptyString => Ok (if negative then - v else v)
      | String c _ =>
          if Ascii.eqb c "000" then Raise null_byte else Raise invalid_literal
      end
  end.

(** ** [shlex.split(line)]

    [shlex.split] builds a lexer in POSIX mode with [whitespace_split]
    set and no comment characters, and collects the tokens that
    [read_token] returns until it returns [None]. *)

Module shlex.

Definition whitespace : string :=
  String " " (String "009" (String "013" (String "010" EmptyString))).
Definition quotes : string := String "'" (String "034" EmptyString).
Definition escape : string := String "\" EmptyString.
Definition escapedquotes : string := String "034" EmptyString.

(** The lexer's [state] attribute is a character or [None]:
    [' '] between tokens, ['a'] inside a word, a quote character inside
    a quoted span, the escape character right after a backslash. *)
Definition st_space : option ascii := Some " "%char.
Definition st_word : option ascii := Some "a"%char.

Definition state_is (st : option ascii) (c : ascii) : bool :=
  match st with Some d => Ascii.eqb d c | None => false end.

Definition state_in (st : option ascii) (chars : string) : bool :=
  match st with Some d => PyStr.char_in d chars | None => false end.

(** What happens at a [break] of [read_token]: the token is returned
    unless it is empty and unquoted, in which case [read_token] returns
    [None] and the iteration over the lexer stops. *)
Definition emit (token : string) (quoted : bool)
    (more : result (list string)) : result (list string) :=
  if (negb quoted && String.eqb token EmptyString)%bool then Ok []
  else toks ← more; Ok (token :: toks).

(** The loop of [read_token], iterated over the whole input: one
    iteration per character read, [state] kept across tokens, and
    [token], [quoted], [escapedstate] reset after each [break]. *)
Fixpoint lex (input : string) (state : option ascii) (token : string)
    (quoted : bool) (escapedstate : ascii) : result (list string) :=
  match input with
  | EmptyString =>
      (* nextchar == '' *)
      if state_is state " " then emit token quoted (Ok [])
      else if state_in state quotes then Raise (ValueError "No closing quotation")
      else if state_in state escape then Raise (ValueError "No escaped character")
      else emit token quoted (Ok [])
  | String nextchar rest =>
      match state with
      | None => Ok []      (* past end of file *)
      | Some st =>
          if Ascii.eqb st " " then
            if PyStr.char_in nextchar whitespace then
              if (negb (String.eqb token EmptyString) || quoted)%bool
              then emit token quoted (lex rest state EmptyString false " ")
              else lex rest state token quoted escapedstate
            else if PyStr.char_in nextchar escape then
              lex rest (Some nextchar) token quoted "a"
            else if PyStr.char_in nextchar quotes then
              lex rest (Some nextchar) token quoted escapedstate
            else
              (* a word character, or any other one under whitespace_split *)
              lex rest st_word (String nextchar EmptyString) quoted escapedstate
          else if PyStr.char_in st quotes then
            (* quoted = True *)
            if Ascii.eqb nextchar st then
              lex rest st_word token true escapedstate
            else if (PyStr.char_in nextchar escape
                     && PyStr.char_in st escapedquotes)%bool then
              lex rest (Some nextchar) token true st
            else
              lex rest state (PyStr.snoc token nextchar) true escapedstate
          else if PyStr.char_in st escape then
            let token1 :=
              if (PyStr.char_in escapedstate quotes
                  && negb (Ascii.eqb nextchar st)
                  && negb (Ascii.eqb nextchar escapedstate))%bool
              then PyStr.snoc token st else token in
            lex rest (Some escapedstate) (PyStr.snoc token1 nextchar)
                quoted escapedstate
          else
            (* state == 'a' *)
            if PyStr.char_in nextchar whitespace then
              if (negb (String.eqb token EmptyString) || quoted)%bool
              then emit token quoted (lex rest st_space EmptyString false " ")
              else lex rest st_space token quoted escapedstate
            else if PyStr.char_in nextchar quotes then
              lex rest (Some nextchar) token quoted escapedstate
            else if PyStr.char_in nextchar escape then
              lex rest (Some nextchar) token quoted "a"
            else
              lex rest state (PyStr.snoc token nextchar) quoted escapedstate
      end
  end.

Definition split (s : string) : result (list string) :=
  lex s st_space EmptyString false " ".

End shlex.

(** The double-quote character, which a string literal cannot hold
    conveniently. *)
Definition dq : string := String "034" EmptyString.

(** ** [urlparse(url).netloc]

    The network-location component computed by [urlparse.urlsplit] for a
    byte string: the scheme, if any, is split off at the first colon, and
    when what is left starts with two slashes the netloc runs up to the
    first of [/], [?], [#].  Unbalanced square brackets in the netloc are
    a [ValueError]. *)

Module urlparse.

Definition scheme_chars : string :=
  "abcdefghijklmnopqrstuvwxyzABCDEFGHIJKLMNOPQRSTUVWXYZ0123456789+-.".

(** [_splitnetloc(url, start)] *)
Definition _splitnetloc (url : string) (start : nat) : string * string :=
  let delim :=
    fold_left
      (fun delim c =>
         match PyStr.find_from url c start with
         | Some wdelim => Nat.min delim wdelim
         | None => delim
         end)
      ["/"; "?"; "#"]%char (String.length url) in
  (PyStr.slice url start delim, PyStr.drop delim url).

(** The url once [urlsplit] has removed the scheme. *)
Definition strip_scheme (url : string) : string :=
  match PyStr.find_from url ":" 0 with
  | Some (S i') =>
      let i := S i' in
      if String.eqb (PyStr.take i url) "http" then PyStr.drop (i + 1) url
      else if PyStr.all (fun c => PyStr.char_in c scheme_chars) (PyStr.take i url)
      then
        let rest := PyStr.drop (i + 1) url in
        if (String.eqb rest EmptyString || negb (PyStr.all PyStr.isdigit rest))%bool
        then rest       (* not a port number *)
        else url
      else url
  | _ => url
  end.

Definition netloc (url0 : string) : result string :=
  let url := strip_scheme url0 in
  if String.eqb (PyStr.take 2 url) "//" then
    let netloc := fst (_splitnetloc url 2) in
    if ((PyStr.char_in "[" netloc && negb (PyStr.char_in "]" netloc))
        || (PyStr.char_in "]" netloc && negb (PyStr.char_in "[" netloc)))%bool
    then Raise (ValueError "Invalid IPv6 URL")
    else Ok netloc
  else Ok EmptyString.

End urlparse.

(** ** Module constants *)

Definition REQUEST_INDEX : nat := 5.
Definition HTTP_CODE_INDEX : nat := 6.
Definition BYTES_INDEX : nat := 7.
Definition REFERRER_INDEX : nat := 8.
Definition HTTP_SUCCESS_CODE : string := "2".
Definition POPULAR_URLS_LIMIT : nat := 10.
Definition ONSITE : string := "example.com".

(** ** Dicts *)

(** [d.get(k, dflt)] *)
Definition dict_get (d : gmap string Z) (k : string) (dflt : Z) : Z :=
  default dflt (d !! k).

(** ** [parse_log_file] *)

(** The local variables of [parse_log_file] that the loop updates. *)
Module Locals.
Record t : Type := mk {
  total_records : Z;
  total_offsite_requests : Z;
  customers_usage : gmap string Z;
  popular_urls : gmap string Z
}.
Definition init : t := mk 0 0 ∅ ∅.
End Locals.

(** The right-hand side of the tuple assignment (source lines 89-92),
    evaluated left to right. *)
Definition extract_fields (record_tokens : list string)
    : result (string * string * Z * string) :=
  request_line ← py_index record_tokens REQUEST_INDEX;
  request ← py_index (PyStr.split_ws request_line) 1;
  http_code ← py_index record_tokens HTTP_CODE_INDEX;
  bytes_token ← py_index record_tokens BYTES_INDEX;
  bytes ← int bytes_token;
  referrer ← py_index record_tokens REFERRER_INDEX;
  Ok (request, http_code, bytes, referrer).

(** One iteration of the loop over the lines of the file. *)
Definition loop_body (st : Locals.t) (record_line : string) : result Locals.t :=
  record_tokens ← shlex.split record_line;
  '(request, http_code, bytes, referrer) ← extract_fields record_tokens;
  username ← py_index (PyStr.split_sep request "/") 1;
  let customers_usage :=
    <[username := dict_get (Locals.customers_usage st) username 0 + bytes]>
      (Locals.customers_usage st) in
  let popular_urls :=
    if PyStr.startswith http_code HTTP_SUCCESS_CODE
    then <[request := dict_get (Locals.popular_urls st) request 0 + 1]>
           (Locals.popular_urls st)
    else Locals.popular_urls st in
  netloc ← urlparse.netloc referrer;
  let total_offsite_requests :=
    if negb (PyStr.contains ONSITE netloc)
    then Locals.total_offsite_requests st + 1
    else Locals.total_offsite_requests st in
  Ok (Locals.mk (Locals.total_records st + 1) total_offsite_requests
                customers_usage popular_urls).

(** [for record_line in f: ...], where [f] stands for the sequence of lines
    that iterating over the open file yields. *)
Fixpoint for_lines (f : list string) (st : Locals.t) : result Locals.t :=
  match f with
  | [] => Ok st
  | record_line :: rest => st' ← loop_body st record_line; for_lines rest st'
  end.

(** ** The store of dicts, and [LogResults] *)

Abbreviation loc := nat (only parsing).
Abbreviation heap := (list (gmap string Z)) (only parsing).

Definition M (A : Type) : Type := heap → result (A * heap).

#[global] Instance M_ret : MRet M := λ A a h, Ok (a, h).
#[global] Instance M_bind : MBind M := λ A B k m h,
  match m h with
  | Ok (a, h') => k a h'
  | Raise e => Raise e
  end.

Definition lift {A} (r : result A) : M A := λ h,
  match r with Ok a => Ok (a, h) | Raise e => Raise e end.

(** The dict stored at [l]. *)
Definition deref (h : heap) (l : loc) : gmap string Z := default ∅ (h !! l).

(** A dict display [{...}] creates a new object. *)
Definition new_dict (d : gmap string Z) : M loc := λ h,
  Ok (List.length h, (h ++ [d])%list).

(** [d.keys()]; the order of the keys is the dict's own. *)
Definition dict_keys (l : loc) : M (list string) := λ h,
  Ok (elements (dom (deref h l)), h).

(** [d.get(k, dflt)] on a stored dict *)
Definition heap_get (l : loc) (k : string) (dflt : Z) : M Z := λ h,
  Ok (dict_get (deref h l) k dflt, h).

(** [d[k] = v] on a stored dict *)
Definition heap_setitem (l : loc) (k : string) (v : Z) : M unit := λ h,
  Ok (tt, <[l := <[k := v]> (deref h l)]> h).

(** [set(l)], in the order in which it is iterated. *)
Definition py_set (l : list string) : list string :=
  elements (list_to_set l : gset string).

Fixpoint for_each {A} (l : list A) (body : A → M unit) : M unit :=
  match l with
  | [] => mret tt
  | x :: rest => _ ← body x; for_each rest body
  end.

Record LogResults : Type := mkLogResults {
  requests : list Z;
  customer_usage : loc;
  popular_urls : loc
}.

(** The two dict objects that the [def __init__] statement creates, once,
    for the default values of [customer_usage] and [popular_urls]. *)
Definition default_customer_usage : loc := 0%nat.
Definition default_popular_urls : loc := 1%nat.

(** The store when the module has been loaded. *)
Definition initial_heap : heap := [∅; ∅].

(** [LogResults.__init__] with all three arguments given. *)
Definition LogResults_init (requests : list Z) (customer_usage popular_urls : loc)
    : LogResults :=
  mkLogResults
    (if Nat.eqb (List.length requests) 0 then [0; 0; 0] else requests)
    customer_usage popular_urls.

(** [LogResults()] *)
Definition LogResults_new : LogResults :=
  LogResults_init [] default_customer_usage default_popular_urls.

Definition parse_log_file (f : list string) : M LogResults :=
  st ← lift (for_lines f Locals.init);
  customers_usage ← new_dict (Locals.customers_usage st);
  popular_urls ← new_dict (Locals.popular_urls st);
  mret (LogResults_init
          [Locals.total_offsite_requests st; Locals.total_records st]
          customers_usage popular_urls).

(** ** [reduce_records] *)

(** [for k in set(d1.keys() + d2.keys()): dst[k] = d1.get(k, 0) + d2.get(k, 0)] *)
Definition sum_dicts (dst d1 d2 : loc) : M unit :=
  ks1 ← dict_keys d1;
  ks2 ← dict_keys d2;
  for_each (py_set (ks1 ++ ks2)%list)
    (λ k, a ← heap_get d1 k 0; b ← heap_get d2 k 0; heap_setitem dst k (a + b)).

Definition reduce_records (rec1 rec2 : LogResults) : M LogResults :=
  let record := LogResults_new in
  _ ← sum_dicts (customer_usage record) (customer_usage rec1) (customer_usage rec2);
  a0 ← lift (py_index (requests rec1) 0);
  b0 ← lift (py_index (requests rec2) 0);
  a1 ← lift (py_index (requests rec1) 1);
  b1 ← lift (py_index (requests rec2) 1);
  let record :=
    mkLogResults [a0 + b0; a1 + b1] (customer_usage record) (popular_urls record) in
  _ ← sum_dicts (popular_urls record) (popular_urls rec1) (popular_urls rec2);
  mret record.

(** ** The main program, up to the aggregate result *)

Fixpoint for_log_files (log_files : list (list string))
    (aggregate_results : LogResults) : M LogResults :=
  match log_files with
  | [] => mret aggregate_results
  | log_file :: rest =>
      rec_result ← parse_log_file log_file;
      aggregate_results' ← reduce_records aggregate_results rec_result;
      for_log_files rest aggregate_results'
  end.

Definition main_aggregate (log_files : list (list string)) : M LogResults :=
  for_log_files log_files LogResults_new.

(** [sorted(items, key=lambda x: x[1], reverse=True)]: a stable sort by
    descending count. *)
Fixpoint insert_desc (x : string * Z) (l : list (string * Z)) : list (string * Z) :=
  match l with
  | [] => [x]
  | y :: l' => if x.2 <? y.2 then y :: insert_desc x l' else x :: l
  end.

Definition sorted_desc (items : list (string * Z)) : list (string * Z) :=
  foldr insert_desc [] items.

(** [sorted(...)[:limit]], source line 146 with the limit as a parameter. *)
Definition top_urls (limit : nat) (items : list (string * Z)) : list (string * Z) :=
  take limit (sorted_desc items).

(** Source line 146: the report takes the items of the aggregate
    frequency map, in the order the dict yields them. *)
Definition main_popular_urls (items : list (string * Z)) : list (string * Z) :=
  top_urls POPULAR_URLS_LIMIT items.

(** The order of the report: the count on the left is at least the count
    on the right. *)
Definition count_ge (x y : string * Z) : Prop := y.2 ≤ x.2.

(** What a [LogResults] holds in a given store. *)
Definition contents (h : heap) (r : LogResults)
    : list Z * gmap string Z * gmap string Z :=
  (requests r, deref h (customer_usage r), deref h (popular_urls r)).

(** Looking at the store in the middle of a run, as a test would. *)
Definition inspect {A} (f : heap → A) : M A := λ h, Ok (f h, h).

(** The result of a run from the store of a freshly loaded module. *)
Definition run {A} (m : M A) : result A :=
  match m initial_heap with
  | Ok (a, _) => Ok a
  | Raise e => Raise e
  end.

(** ** A record view of one loop iteration

    The fields that one line contributes.  [loop_body] computes them in
    the same order, interleaved with the updates of its locals; since no
    exception is caught, computing them first changes nothing. *)

Record ParsedRecord : Type := mkParsedRecord {
  pr_request : string;
  pr_http_code : string;
  pr_bytes : Z;
  pr_referrer : string;
  pr_username : string;
  pr_netloc : string
}.

(** [request.split("/")[1]] *)
Definition username_of (request : string) : result string :=
  py_index (PyStr.split_sep request "/") 1.

Definition parse_record (record_line : string) : result ParsedRecord :=
  record_tokens ← shlex.split record_line;
  '(request, http_code, bytes, referrer) ← extract_fields record_tokens;
  username ← username_of request;
  netloc ← urlparse.netloc referrer;
  Ok (mkParsedRecord request http_code bytes referrer username netloc).

Definition is_success (http_code : string) : bool :=
  PyStr.startswith http_code HTTP_SUCCESS_CODE.

Definition is_offsite (netloc : string) : bool :=
  negb (PyStr.contains ONSITE netloc).

Definition account (st : Locals.t) (r : ParsedRecord) : Locals.t :=
  Locals.mk
    (Locals.total_records st + 1)
    (if is_offsite (pr_netloc r)
     then Locals.total_offsite_requests st + 1
     else Locals.total_offsite_requests st)
    (<[pr_username r :=
         dict_get (Locals.customers_usage st) (pr_username r) 0 + pr_bytes r]>
       (Locals.customers_usage st))
    (if is_success (pr_http_code r)
     then <[pr_request r :=
              dict_get (Locals.popular_urls st) (pr_request r) 0 + 1]>
            (Locals.popular_urls st)
     else Locals.popular_urls st).

(** Key-wise sum of two dicts over the union of their keys, an absent key
    counting as zero: what the merge of two results is meant to compute. *)
Definition keywise_sum (d1 d2 : gmap string Z) : gmap string Z :=
  union_with (λ a b, Some (a + b)) d1 d2.

(** The effect on the store of one iteration of the loop of [sum_dicts]. *)
Definition sum_step (dst d1 d2 : loc) (h : heap) (k : string) : heap :=
  <[dst := <[k := dict_get (deref h d1) k 0 + dict_get (deref h d2) k 0]>
             (deref h dst)]> h.

(** The sum of the values of a dict. *)
Definition sum_values (d : gmap string Z) : Z :=
  map_fold (λ _ v acc, v + acc) 0 d.

Definition sum_list (l : list Z) : Z := foldr Z.add 0 l.

(** The bytes that a list of records charges to one customer. *)
Definition bytes_of (customer : string) (rs : list ParsedRecord) : Z :=
  sum_list (pr_bytes <$> filter (λ r, pr_username r = customer) rs).

(** The value of a string of decimal digits, by position. *)
Fixpoint decimal_value (ds : string) : Z :=
  match ds with
  | EmptyString => 0
  | String c rest =>
      (Z.of_nat (nat_of_ascii c) - 48) * 10 ^ Z.of_nat (String.length rest)
      + decimal_value rest
  end.

(** The literals [int] accepts: whitespace, an optional sign, whitespace,
    digits, whitespace. *)
Inductive int_literal : string → Z → Prop :=
  | IntLiteral (ws1 sign ws ds ws2 : string) :
      PyStr.all PyStr.isspace ws1 = true →
      sign = "" ∨ sign = "+" ∨ sign = "-" →
      PyStr.all PyStr.isspace ws = true →
      ds ≠ "" →
      PyStr.all PyStr.isdigit ds = true →
      PyStr.all PyStr.isspace ws2 = true →
      int_literal (ws1 ++ sign ++ ws ++ ds ++ ws2)
        (if String.eqb sign "-" then - decimal_value ds else decimal_value ds).

(** A string is empty or starts with a character that fails [p]. *)
Definition stops (p : ascii → bool) (s : string) : Prop :=
  match s with
  | EmptyString => True
  | String c _ => p c = false
  end.

(** [sub] occurs in [s]. *)
Definition substring_of (sub s : string) : Prop :=
  ∃ pre post, s = pre ++ sub ++ post.

(** A line that cannot be turned into a record for one of the three
    reasons the error policy names. *)
Inductive malformed (line : string) : Prop :=
  | bad_tokenization e :
      shlex.split line = Raise e → malformed line
  | missing_fields toks :
      shlex.split line = Ok toks →
      (List.length toks ≤ REFERRER_INDEX)%nat → malformed line
  | bad_byte_count toks tok e :
      shlex.split line = Ok toks →
      toks !! BYTES_INDEX = Some tok → int tok = Raise e → malformed line.

(** The counter invariant of a result: it has both counters, and the
    off-site one does not exceed the total. *)
Definition counters_ok (r : LogResults) : Prop :=
  ∃ o t rest, requests r = o :: t :: rest ∧ 0 ≤ o ≤ t.

(** ** Views used to state what the loop computes *)

(** The locals of two runs of the loop, put together: counters added,
    maps summed key-wise. *)
Definition locals_sum (a b : Locals.t) : Locals.t :=
  Locals.mk
    (Locals.total_records a + Locals.total_records b)
    (Locals.total_offsite_requests a + Locals.total_offsite_requests b)
    (keywise_sum (Locals.customers_usage a) (Locals.customers_usage b))
    (keywise_sum (Locals.popular_urls a) (Locals.popular_urls b)).

(** The number of records that satisfy a test. *)
Definition count_records (p : ParsedRecord → bool) (rs : list ParsedRecord) : Z :=
  Z.of_nat (List.length (List.filter p rs)).

(** The record is a successful request of [url]. *)
Definition hits (url : string) (r : ParsedRecord) : bool :=
  (is_success (pr_http_code r) && String.eqb (pr_request r) url)%bool.

(** ** [log_files_in_directory] *)

(** [s.endswith(c)] for a one-character suffix. *)
Fixpoint endswith_char (s : string) (c : ascii) : bool :=
  match s with
  | EmptyString => false
  | String d EmptyString => Ascii.eqb d c
  | String _ rest => endswith_char rest c
  end.

(** [os.path.join(a, b)] on POSIX, for two arguments. *)
Definition os_path_join (a b : string) : string :=
  if PyStr.startswith b "/" then b
  else if (String.eqb a EmptyString || endswith_char a "/")%bool then a ++ b
  else a ++ "/" ++ b.

(** The directory is read through [listdir], which stands for
    [os.listdir]: the names of the entries of a directory. *)
Definition log_files_in_directory (listdir : string → list string)
    (dir_name : string) : list string :=
  List.map (λ file_name, os_path_join dir_name file_name)
    (List.filter (λ file_name, negb (PyStr.startswith file_name "."))
       (listdir dir_name)).

(** ** The main program *)

(** The conversion of an integer to a float, which [0.0 + n] and
    [n / GIGABYTE] perform on their integer operand (CPython 2.7,
    [PyLong_AsDouble]): the integer is rounded to 53 significant bits, to
    nearest with ties to even, and [OverflowError] is raised when the
    rounded value is [2^1024] or more in absolute value, that is from
    [2^1024 - 2^970] on. *)
Definition float_limit : Z := 2 ^ 1024 - 2 ^ 970.

Definition float_overflows (n : Z) : bool := float_limit <=? Z.abs n.

(** The loop of source lines 151-152 over the items of the usage dict, in
    the order the dict yields them.  [customer_usage/GIGABYTE] converts
    the usage to a float before the line is formatted and printed, so the
    loop ends with [OverflowError] at the first usage out of range.  The
    result is the items whose line was printed, and whether the loop
    reached its end. *)
Fixpoint print_usage (items : list (string * Z)) : list (string * Z) * bool :=
  match items with
  | [] => ([], true)
  | (customer_name, customer_usage) :: rest =>
      if float_overflows customer_usage then ([], false)
      else
        let '(printed, finished) := print_usage rest in
        ((customer_name, customer_usage) :: printed, finished)
  end.

(** How a run of the script ends.  The percentage and the gigabytes of
    the report are floats printed with two decimals; the report carries
    the integers they are computed from, the usages in the order of their
    lines. *)
Inductive outcome : Type :=
  | Usage                       (* help() and exit("Bye") *)
  | Uncaught (e : exception)    (* an exception of the aggregation *)
  | ZeroDivisionError           (* the percentage, source line 139 *)
  | OverflowError               (* the percentage, source line 139 *)
  | Report (offsite total : Z) (top : list (string * Z))
      (usage : list (string * Z))
  | PartialReport               (* OverflowError at source line 152 *)
      (offsite total : Z) (top : list (string * Z))
      (usage : list (string * Z)).

(** The script from its arguments.  [listdir] stands for [os.listdir] and
    [lines_of] for the lines that the file at a path yields.  [url_items]
    and [usage_items] stand for the order in which the dict of URL
    frequencies yields its items to [items()] and the dict of usages to
    [iteritems()]: CPython's order depends on the hashes of the keys and
    on the history of the dict, and each of the two is asked once in a
    run.  Nothing is printed before line 141, so the outcomes up to
    [OverflowError] leave no report. *)
Definition main (argv : list string) (listdir : string → list string)
    (lines_of : string → list string)
    (url_items usage_items : gmap string Z → list (string * Z)) : outcome :=
  if (List.length argv <? 2)%nat then Usage
  else
    match py_index argv 1 with
    | Raise e => Uncaught e
    | Ok directory_name =>
        let log_files := log_files_in_directory listdir directory_name in
        match main_aggregate (List.map lines_of log_files) initial_heap with
        | Raise e => Uncaught e
        | Ok (aggregate_results, h) =>
            match py_index (requests aggregate_results) 0 with
            | Raise e => Uncaught e
            | Ok offsite =>
                if float_overflows offsite then OverflowError
                else
                  match py_index (requests aggregate_results) 1 with
                  | Raise e => Uncaught e
                  | Ok total =>
                      if float_overflows total then OverflowError
                      else if total =? 0 then ZeroDivisionError
                      else
                        let popular_urls :=
                          main_popular_urls
                            (url_items (deref h (popular_urls aggregate_results))) in
                        match print_usage
                                (usage_items
                                   (deref h (customer_usage aggregate_results))) with
                        | (printed, true) =>
                            Report offsite total popular_urls printed
                        | (printed, false) =>
                            PartialReport offsite total popular_urls printed
                        end
                  end
            end
        end
    end.

(** ** Sample inputs *)

Definition nl : string := String "010" EmptyString.

(** A line of a combined-format access log with the given request line,
    status, byte count and referrer. *)
Definition log_line (request_line status bytes referrer : string) : string :=
  "10.0.0.1 - - [10/Oct/2000:13:55:36 -0700] "
  ++ dq ++ request_line ++ dq ++ " " ++ status ++ " " ++ bytes ++ " "
  ++ dq ++ referrer ++ dq ++ " " ++ dq ++ "Mozilla/4.08 [en] (Win98; I ;Nav)" ++ dq
  ++ nl.



(** Three one-line log files, one customer each. *)
Definition file_alice : list string :=
  [log_line "GET /alice/a HTTP/1.1" "200" "10" "http://www.example.com/"].
Definition file_bob : list string :=
  [log_line "GET /bob/b HTTP/1.1" "200" "20" "http://www.example.com/"].
Definition file_carol : list string :=
  [log_line "GET /carol/c HTTP/1.1" "200" "30" "http://other.org/"].

(** * Properties *)

(** ** The library functions on the inputs of the specification *)

Example shlex_split_quoted :
  shlex.split ("a " ++ dq ++ "b c" ++ dq ++ " d") = Ok ["a"; "b c"; "d"].
Proof. reflexivity. Qed.

Example netloc_onsite :
  urlparse.netloc "http://www.example.com/page" = Ok "www.example.com".
Proof. reflexivity. Qed.

Example netloc_offsite :
  urlparse.netloc "http://other.org/page" = Ok "other.org".
Proof. reflexivity. Qed.

Example netloc_absent : urlparse.netloc "-" = Ok "".
Proof. reflexivity. Qed.

(** ** The error monad *)

Lemma rbind_ok {A B} (r : result A) (k : A → result B) b :
  r ≫= k = Ok b ↔ ∃ a, r = Ok a ∧ k a = Ok b.
Proof.
  destruct r as [a|e]; simpl; split.
  - eauto.
  - intros (a' & [= <-] & H); exact H.
  - intros [=].
  - intros (a' & [=] & _).
Qed.

Lemma py_index_lookup {A} (l : list A) i :
  py_index l i = match l !! i with Some x => Ok x | None => Raise IndexError end.
Proof.
  unfold py_index. revert i; induction l as [|x l IH]; intros [|i]; simpl; auto.
Qed.

Lemma py_index_ok {A} (l : list A) i x :
  py_index l i = Ok x ↔ l !! i = Some x.
Proof. rewrite py_index_lookup; destruct (l !! i); split; congruence. Qed.

Lemma py_index_raise {A} (l : list A) i e :
  py_index l i = Raise e ↔ (List.length l ≤ i)%nat ∧ e = IndexError.
Proof.
  rewrite py_index_lookup. destruct (l !! i) eqn:E.
  - apply lookup_lt_Some in E. split; [congruence | lia].
  - apply lookup_ge_None in E. split; [intros [= <-]; auto | intros [_ ->]; auto].
Qed.

(** ** One loop iteration through the record view *)

Lemma loop_body_account st line :
  loop_body st line = r ← parse_record line; Ok (account st r).
Proof.
  unfold loop_body, parse_record, username_of.
  destruct (shlex.split line) as [toks|e]; [|reflexivity]. simpl.
  destruct (extract_fields toks) as [[[[rq hc] b] rf]|e]; [|reflexivity]. simpl.
  destruct (py_index _ 1) as [u|e]; [|reflexivity]. simpl.
  destruct (urlparse.netloc rf) as [n|e]; reflexivity.
Qed.

Lemma loop_body_ok st line st' :
  loop_body st line = Ok st' ↔ ∃ r, parse_record line = Ok r ∧ st' = account st r.
Proof.
  rewrite loop_body_account, rbind_ok.
  split; intros (r & H1 & H2); exists r; split; auto; congruence.
Qed.

Lemma loop_body_raise st line e :
  loop_body st line = Raise e ↔ parse_record line = Raise e.
Proof.
  rewrite loop_body_account. destruct (parse_record line); simpl; split; congruence.
Qed.

(** ** Strings *)

Section strings.
Implicit Types (s t u : string) (c d : ascii).

Lemma append_cons c s t : String c s ++ t = String c (s ++ t).
Proof. reflexivity. Qed.

Lemma append_nil_l s : "" ++ s = s.
Proof. reflexivity. Qed.

Lemma append_nil_r s : s ++ "" = s.
Proof.
  induction s as [|d s IH]; [reflexivity|]. now rewrite append_cons, IH.
Qed.

Lemma append_assoc s t u : (s ++ t) ++ u = s ++ t ++ u.
Proof.
  induction s as [|d s IH]; [reflexivity|]. now rewrite !append_cons, IH.
Qed.

Lemma snoc_append s c : PyStr.snoc s c = s ++ String c "".
Proof.
  induction s as [|d s IH]; [reflexivity|].
  cbn [PyStr.snoc]. now rewrite IH, append_cons.
Qed.

Lemma all_append p s t :
  PyStr.all p (s ++ t) = (PyStr.all p s && PyStr.all p t)%bool.
Proof.
  induction s as [|d s IH]; [reflexivity|].
  rewrite append_cons. cbn [PyStr.all]. rewrite IH. now destruct (p d).
Qed.

Lemma char_in_append c s t :
  PyStr.char_in c (s ++ t) = (PyStr.char_in c s || PyStr.char_in c t)%bool.
Proof.
  induction s as [|d s IH]; [reflexivity|].
  rewrite append_cons. cbn [PyStr.char_in]. rewrite IH.
  now destruct (Ascii.eqb c d).
Qed.

Lemma startswith_spec s p :
  PyStr.startswith s p = true ↔ ∃ rest, s = p ++ rest.
Proof.
  revert s; induction p as [|c p IH]; intros s.
  - split; [intros _; now exists s | reflexivity].
  - destruct s as [|d s]; cbn [PyStr.startswith].
    + split; [discriminate | intros (rest & [=])].
    + rewrite andb_true_iff, Ascii.eqb_eq, IH. split.
      * intros (-> & rest & ->). now exists rest.
      * intros (rest & H). rewrite append_cons in H. injection H as -> ->.
        split; [reflexivity | now exists rest].
Qed.

Lemma contains_spec sub s :
  PyStr.contains sub s = true ↔ substring_of sub s.
Proof.
  unfold substring_of. induction s as [|d s IH].
  - cbn [PyStr.contains]. rewrite orb_false_r, startswith_spec. split.
    + intros (rest & H). exists "", rest. exact H.
    + intros (pre & post & H). destruct pre; [|discriminate].
      exists post. exact H.
  - cbn [PyStr.contains]. rewrite orb_true_iff, startswith_spec, IH. split.
    + intros [(rest & H) | (pre & post & H)].
      * exists "", rest. exact H.
      * exists (String d pre), post. rewrite append_cons. now rewrite H.
    + intros (pre & post & H). destruct pre as [|e pre].
      * left. exists post. exact H.
      * right. rewrite append_cons in H. injection H as _ H.
        exists pre, post. exact H.
Qed.

(** The success test looks at the first character only. *)
Lemma is_success_spec http_code :
  is_success http_code = true ↔ ∃ rest, http_code = String "2" rest.
Proof.
  unfold is_success, HTTP_SUCCESS_CODE. rewrite startswith_spec.
  split; intros (rest & ->); now exists rest.
Qed.

(** [split] on a separator: up to the first separator, then the rest. *)
Lemma split_sep_aux_no_sep sep s cur :
  PyStr.char_in sep s = false →
  PyStr.split_sep_aux sep s cur = [cur ++ s].
Proof.
  revert cur; induction s as [|d s IH]; intros cur.
  - intros _. cbn [PyStr.split_sep_aux]. now rewrite append_nil_r.
  - cbn [PyStr.split_sep_aux PyStr.char_in]. rewrite orb_false_iff.
    intros [Hd Hs].
    rewrite Ascii.eqb_sym, Hd, IH by assumption.
    now rewrite snoc_append, append_assoc.
Qed.

Lemma split_sep_aux_first sep s t cur :
  PyStr.char_in sep s = false →
  PyStr.split_sep_aux sep (s ++ String sep t) cur
  = (cur ++ s) :: PyStr.split_sep_aux sep t "".
Proof.
  revert cur; induction s as [|d s IH]; intros cur.
  - intros _. rewrite append_nil_l. cbn [PyStr.split_sep_aux].
    now rewrite Ascii.eqb_refl, append_nil_r.
  - rewrite append_cons. cbn [PyStr.split_sep_aux PyStr.char_in].
    rewrite orb_false_iff. intros [Hd Hs].
    rewrite Ascii.eqb_sym, Hd, IH by assumption.
    now rewrite snoc_append, append_assoc.
Qed.

(** A string either has no separator or splits at its first one. *)
Lemma first_sep sep s :
  PyStr.char_in sep s = false ∨
  ∃ pre post, s = pre ++ String sep post ∧ PyStr.char_in sep pre = false.
Proof.
  induction s as [|d s IH]; [now left|]. cbn [PyStr.char_in].
  destruct (Ascii.eqb sep d) eqn:E.
  - apply Ascii.eqb_eq in E as <-. right. now exists "", s.
  - destruct IH as [IH | (pre & post & -> & Hpre)]; [now left|].
    right. exists (String d pre), post. cbn [PyStr.char_in].
    now rewrite E.
Qed.

End strings.

(** ** [int]: the literals it accepts and their value *)

Section int_spec.
Implicit Types (s t ds ws : string) (c : ascii).

Lemma digit_not_space c : PyStr.isdigit c = true → PyStr.isspace c = false.
Proof.
  unfold PyStr.isdigit, PyStr.isspace. intros H.
  apply andb_true_iff in H as [H1 H2].
  apply Nat.leb_le in H1. apply Nat.leb_le in H2.
  apply orb_false_iff. split.
  - apply Nat.eqb_neq. lia.
  - apply andb_false_iff. right. apply Nat.leb_gt. lia.
Qed.

Lemma space_not_digit c : PyStr.isspace c = true → PyStr.isdigit c = false.
Proof.
  intros H. destruct (PyStr.isdigit c) eqn:E; [|reflexivity].
  apply digit_not_space in E. congruence.
Qed.

Lemma all_stops p q s :
  (∀ c, p c = true → q c = false) → PyStr.all p s = true → stops q s.
Proof.
  intros Hpq. destruct s as [|c s]; [easy|]. cbn [PyStr.all stops].
  intros H. apply andb_true_iff in H as [H _]. now apply Hpq.
Qed.

Lemma lstrip_spec s :
  ∃ ws, s = ws ++ lstrip s ∧ PyStr.all PyStr.isspace ws = true
        ∧ stops PyStr.isspace (lstrip s).
Proof.
  induction s as [|c s (ws & Hs & Hws & Hstop)].
  - now exists "".
  - cbn [lstrip]. destruct (PyStr.isspace c) eqn:E.
    + exists (String c ws). rewrite append_cons, <- Hs.
      cbn [PyStr.all]. now rewrite E, Hws.
    + now exists "".
Qed.

Lemma lstrip_append ws t :
  PyStr.all PyStr.isspace ws = true → stops PyStr.isspace t →
  lstrip (ws ++ t) = t.
Proof.
  intros Hws Ht. induction ws as [|c ws IH].
  - rewrite append_nil_l. destruct t as [|c t]; [reflexivity|].
    cbn [lstrip]. cbn [stops] in Ht. now rewrite Ht.
  - cbn [PyStr.all] in Hws. apply andb_true_iff in Hws as [Hc Hws].
    rewrite append_cons. cbn [lstrip]. rewrite Hc. now apply IH.
Qed.

Lemma length_append s t :
  String.length (s ++ t) = (String.length s + String.length t)%nat.
Proof.
  induction s as [|c s IH]; [reflexivity|].
  rewrite append_cons. cbn [String.length]. now rewrite IH.
Qed.

Lemma read_digits_append ds rest acc n :
  PyStr.all PyStr.isdigit ds = true → stops PyStr.isdigit rest →
  read_digits (ds ++ rest) acc n
  = (acc * 10 ^ Z.of_nat (String.length ds) + decimal_value ds,
     (n + String.length ds)%nat, rest).
Proof.
  intros Hds Hrest. revert acc n. induction ds as [|c ds IH]; intros acc n.
  - rewrite append_nil_l. cbn [String.length decimal_value].
    replace (acc * 10 ^ Z.of_nat 0 + 0) with acc by (simpl; lia).
    rewrite Nat.add_0_r.
    destruct rest as [|c rest]; [reflexivity|].
    cbn [read_digits]. cbn [stops] in Hrest. now rewrite Hrest.
  - cbn [PyStr.all] in Hds. apply andb_true_iff in Hds as [Hc Hds].
    rewrite append_cons. cbn [read_digits]. rewrite Hc, (IH Hds).
    cbn [String.length decimal_value].
    rewrite Nat2Z.inj_succ, Z.pow_succ_r by lia.
    set (d := Z.of_nat (nat_of_ascii c) - 48).
    set (w := 10 ^ Z.of_nat (String.length ds)).
    replace ((10 * acc + d) * w + decimal_value ds)
      with (acc * (10 * w) + (d * w + decimal_value ds)) by lia.
    now rewrite Nat.add_succ_r.
Qed.

Lemma digits_prefix s :
  ∃ ds rest, s = ds ++ rest ∧ PyStr.all PyStr.isdigit ds = true
             ∧ stops PyStr.isdigit rest.
Proof.
  induction s as [|c s (ds & rest & -> & Hds & Hrest)].
  - now exists "", "".
  - destruct (PyStr.isdigit c) eqn:E.
    + exists (String c ds), rest. rewrite append_cons.
      cbn [PyStr.all]. now rewrite E, Hds.
    + now exists "", (String c (ds ++ rest)).
Qed.

Lemma startswith_char s c :
  PyStr.startswith s (String c "") = true ↔ ∃ t, s = String c t.
Proof.
  rewrite startswith_spec. split; intros (t & ->); now exists t.
Qed.

Lemma startswith_digit_sign c t sign :
  PyStr.isdigit c = true → sign = "-"%char ∨ sign = "+"%char →
  PyStr.startswith (String c t) (String sign "") = false.
Proof.
  intros Hc Hsign. destruct (PyStr.startswith _ _) eqn:E; [|reflexivity].
  apply startswith_char in E as (t' & [= -> _]).
  destruct Hsign as [-> | ->]; discriminate Hc.
Qed.

Lemma lstrip_append_ws ws t :
  PyStr.all PyStr.isspace ws = true → lstrip (ws ++ t) = lstrip t.
Proof.
  intros Hws. induction ws as [|c ws IH].
  - now rewrite append_nil_l.
  - cbn [PyStr.all] in Hws. apply andb_true_iff in Hws as [Hc Hws].
    rewrite append_cons. cbn [lstrip]. rewrite Hc. now apply IH.
Qed.

Lemma lstrip_stops t : stops PyStr.isspace t → lstrip t = t.
Proof.
  destruct t as [|c t]; [reflexivity|]. cbn [stops lstrip]. now intros ->.
Qed.

Lemma lstrip_nil s : lstrip s = "" ↔ PyStr.all PyStr.isspace s = true.
Proof.
  split.
  - intros H. destruct (lstrip_spec s) as (ws & Hs & Hws & _).
    rewrite H, append_nil_r in Hs. now subst.
  - intros H. rewrite <- (append_nil_r s). now rewrite lstrip_append_ws.
Qed.

(** Whitespace between the sign and the digits is accepted. *)
Example int_space_after_sign :
  int "- 5" = Ok (-5) ∧ int " +  42 " = Ok 42 ∧ int "-" = Raise invalid_literal
  ∧ int "5 - 3" = Raise invalid_literal
  ∧ int (String "5" (String "000" EmptyString)) = Raise null_byte.
Proof. repeat split. Qed.

Theorem int_literal_int s z : int_literal s z → int s = Ok z.
Proof.
  intros [ws1 sign ws ds ws2 Hws1 Hsign Hws Hne Hds Hws2].
  assert (Hstop2 : stops PyStr.isdigit ws2)
    by (eapply all_stops; [apply space_not_digit | exact Hws2]).
  destruct ds as [|c ds]; [congruence|].
  assert (Hc : PyStr.isdigit c = true)
    by (cbn [PyStr.all] in Hds; now apply andb_true_iff in Hds as [? _]).
  assert (Hd : lstrip (ws ++ String c ds ++ ws2) = String c ds ++ ws2).
  { rewrite lstrip_append_ws by assumption. apply lstrip_stops.
    rewrite append_cons. cbn [stops]. now apply digit_not_space. }
  apply lstrip_nil in Hws2 as Hr.
  unfold int. cbv zeta. rewrite lstrip_append_ws by assumption.
  destruct Hsign as [-> | [-> | ->]].
  - rewrite append_nil_l, Hd, append_cons.
    rewrite !startswith_digit_sign by auto. cbn [orb].
    rewrite lstrip_stops by (cbn [stops]; now apply digit_not_space).
    rewrite <- append_cons, read_digits_append by assumption.
    cbn [String.length Nat.add]. rewrite Hr.
    f_equal; lia.
  - rewrite (lstrip_stops ("+" ++ _)) by reflexivity.
    change (PyStr.startswith ("+" ++ ws ++ String c ds ++ ws2) "-") with false.
    change (PyStr.startswith ("+" ++ ws ++ String c ds ++ ws2) "+") with true.
    cbn [orb]. change (PyStr.drop 1 ("+" ++ ws ++ String c ds ++ ws2))
      with (ws ++ String c ds ++ ws2).
    rewrite Hd, read_digits_append by assumption.
    cbn [String.length Nat.add]. rewrite Hr.
    change ("+" =? "-")%string with false. f_equal; lia.
  - rewrite (lstrip_stops ("-" ++ _)) by reflexivity.
    change (PyStr.startswith ("-" ++ ws ++ String c ds ++ ws2) "-") with true.
    cbn [orb]. change (PyStr.drop 1 ("-" ++ ws ++ String c ds ++ ws2))
      with (ws ++ String c ds ++ ws2).
    rewrite Hd, read_digits_append by assumption.
    cbn [String.length Nat.add]. rewrite Hr.
    change ("-" =? "-")%string with true. f_equal; lia.
Qed.

Theorem int_ok_literal s z : int s = Ok z → int_literal s z.
Proof.
  unfold int. cbv zeta.
  destruct (lstrip_spec s) as (ws1 & Hs & Hws1 & Hstop).
  set (s1 := lstrip s) in *.
  set (neg := PyStr.startswith s1 "-").
  set (pos := PyStr.startswith s1 "+").
  set (s2 := if (neg || pos)%bool then PyStr.drop 1 s1 else s1).
  destruct (lstrip_spec s2) as (ws & Hs2 & Hws & _).
  destruct (digits_prefix (lstrip s2)) as (ds & rest & Hs3 & Hds & Hrest).
  rewrite Hs3, read_digits_append by assumption.
  destruct (String.length ds) as [|n] eqn:Hlen; [discriminate|].
  cbn [Nat.add].
  destruct (lstrip rest) as [|c' rest'] eqn:Hws2;
    [|destruct (Ascii.eqb c' "000"); discriminate].
  apply lstrip_nil in Hws2.
  intros [= <-].
  assert (Hne : ds ≠ "") by (intros ->; discriminate Hlen).
  replace (0 * 10 ^ Z.of_nat (S n) + decimal_value ds)
    with (decimal_value ds) by lia.
  rewrite Hs3 in Hs2.
  destruct neg eqn:Hneg; [|destruct pos eqn:Hpos].
  - apply startswith_char in Hneg as (t & Ht).
    assert (s = ws1 ++ "-" ++ ws ++ ds ++ rest) as ->.
    { rewrite Hs, Ht. subst s2. rewrite Ht in Hs2. cbn in Hs2. now rewrite <- Hs2. }
    now apply (IntLiteral ws1 "-" ws ds rest); auto.
  - apply startswith_char in Hpos as (t & Ht).
    assert (s = ws1 ++ "+" ++ ws ++ ds ++ rest) as ->.
    { rewrite Hs, Ht. subst s2. rewrite Ht in Hs2. cbn in Hs2. now rewrite <- Hs2. }
    now apply (IntLiteral ws1 "+" ws ds rest); auto.
  - assert (s = ws1 ++ "" ++ ws ++ ds ++ rest) as ->.
    { rewrite Hs. subst s2. cbn in Hs2. now rewrite <- Hs2. }
    now apply (IntLiteral ws1 "" ws ds rest); auto.
Qed.

(** Every failure of [int] is a [ValueError]. *)
Lemma int_raise s e : int s = Raise e → e = invalid_literal ∨ e = null_byte.
Proof.
  unfold int. cbv zeta. destruct (read_digits _ 0 O) as [[v n] rest].
  destruct n; [intros [= <-]; now left|].
  destruct (lstrip rest) as [|c rest']; [discriminate|].
  destruct (Ascii.eqb c "000"); intros [= <-]; auto.
Qed.

Lemma int_raise_ValueError s e : int s = Raise e → ∃ msg, e = ValueError msg.
Proof. intros H. apply int_raise in H as [-> | ->]; now eexists. Qed.

Lemma int_spec s z : int s = Ok z ↔ int_literal s z.
Proof. split; [apply int_ok_literal | apply int_literal_int]. Qed.

(** [int] fails exactly on the strings that are not literals. *)
Lemma int_raise_iff s :
  (∃ msg, int s = Raise (ValueError msg)) ↔ ¬ ∃ z, int_literal s z.
Proof.
  split.
  - intros (msg & H) (z & Hz). apply int_literal_int in Hz. congruence.
  - intros H. destruct (int s) as [z|e] eqn:E.
    + exfalso. apply H. exists z. now apply int_ok_literal.
    + apply int_raise_ValueError in E as (msg & ->). now exists msg.
Qed.

End int_spec.

(** ** Field extraction *)

Lemma parse_record_inv line r :
  parse_record line = Ok r →
  ∃ toks,
    shlex.split line = Ok toks
    ∧ extract_fields toks
      = Ok (pr_request r, pr_http_code r, pr_bytes r, pr_referrer r)
    ∧ username_of (pr_request r) = Ok (pr_username r)
    ∧ urlparse.netloc (pr_referrer r) = Ok (pr_netloc r).
Proof.
  unfold parse_record. intros H.
  apply rbind_ok in H as (toks & Htoks & H). exists toks.
  apply rbind_ok in H as ([[[rq hc] b] rf] & Hex & H).
  apply rbind_ok in H as (u & Hu & H).
  apply rbind_ok in H as (n & Hn & [= <-]). simpl. auto.
Qed.

Lemma extract_fields_inv toks rq hc b rf :
  extract_fields toks = Ok (rq, hc, b, rf) →
  ∃ request_line bytes_token,
    toks !! REQUEST_INDEX = Some request_line
    ∧ PyStr.split_ws request_line !! 1%nat = Some rq
    ∧ toks !! HTTP_CODE_INDEX = Some hc
    ∧ toks !! BYTES_INDEX = Some bytes_token
    ∧ int bytes_token = Ok b
    ∧ toks !! REFERRER_INDEX = Some rf.
Proof.
  unfold extract_fields. intros H.
  apply rbind_ok in H as (rl & Hrl & H). apply py_index_ok in Hrl.
  apply rbind_ok in H as (rq' & Hrq & H). apply py_index_ok in Hrq.
  apply rbind_ok in H as (hc' & Hhc & H). apply py_index_ok in Hhc.
  apply rbind_ok in H as (bt & Hbt & H). apply py_index_ok in Hbt.
  apply rbind_ok in H as (b' & Hb & H).
  apply rbind_ok in H as (rf' & Hrf & [= -> -> -> ->]). apply py_index_ok in Hrf.
  exists rl, bt. auto 10.
Qed.

Lemma extract_fields_eval toks request_line rq hc bytes_token :
  toks !! REQUEST_INDEX = Some request_line →
  PyStr.split_ws request_line !! 1%nat = Some rq →
  toks !! HTTP_CODE_INDEX = Some hc →
  toks !! BYTES_INDEX = Some bytes_token →
  extract_fields toks
  = (bytes ← int bytes_token;
     referrer ← py_index toks REFERRER_INDEX;
     Ok (rq, hc, bytes, referrer)).
Proof.
  intros H5 H51 H6 H7. unfold extract_fields.
  apply py_index_ok in H5, H51, H6, H7.
  rewrite H5. simpl. rewrite H51. simpl. rewrite H6. simpl. rewrite H7.
  reflexivity.
Qed.

Lemma split_sep_aux_nonempty sep s cur :
  ∃ x l, PyStr.split_sep_aux sep s cur = x :: l.
Proof.
  revert cur; induction s as [|d s IH]; intros cur; cbn [PyStr.split_sep_aux].
  - eauto.
  - destruct (Ascii.eqb d sep); eauto.
Qed.

(** The customer id of a request path without any slash does not exist;
    otherwise it is what lies between the first slash and the next. *)
Lemma username_of_no_slash request :
  PyStr.char_in "/" request = false ↔ username_of request = Raise IndexError.
Proof.
  unfold username_of, PyStr.split_sep. split.
  - intros H. now rewrite split_sep_aux_no_sep.
  - intros H. destruct (first_sep "/" request) as [Hno | (pre & post & -> & Hpre)];
      [exact Hno|].
    rewrite split_sep_aux_first in H by assumption.
    destruct (split_sep_aux_nonempty "/" post "") as (x & l & Hx).
    rewrite Hx in H. discriminate H.
Qed.

Lemma username_of_segment pre seg rest :
  PyStr.char_in "/" pre = false →
  PyStr.char_in "/" seg = false →
  rest = "" ∨ (∃ t, rest = String "/" t) →
  username_of (pre ++ "/" ++ seg ++ rest) = Ok seg.
Proof.
  intros Hpre Hseg Hrest. unfold username_of, PyStr.split_sep.
  change ("/" ++ seg ++ rest) with (String "/" (seg ++ rest)).
  rewrite split_sep_aux_first by assumption.
  destruct Hrest as [-> | (t & ->)].
  - rewrite append_nil_r, split_sep_aux_no_sep by assumption. reflexivity.
  - rewrite split_sep_aux_first by assumption. reflexivity.
Qed.

(** ** Byte count *)

(** C4, as the code has it: the byte count of a record is [int] of the
    token at index 7, that is the value of an optionally signed decimal
    literal (whitespace allowed before the sign, between the sign and the
    digits, and after the digits), and once the request and status fields
    are there, a [ValueError] is raised exactly when the token is not such
    a literal. *)
Theorem byte_count_is_int_of_token
    (record_tokens : list string) (request_line request http_code bytes_token : string) :
  record_tokens !! REQUEST_INDEX = Some request_line →
  PyStr.split_ws request_line !! 1%nat = Some request →
  record_tokens !! HTTP_CODE_INDEX = Some http_code →
  record_tokens !! BYTES_INDEX = Some bytes_token →
  (∀ z referrer,
      int_literal bytes_token z →
      record_tokens !! REFERRER_INDEX = Some referrer →
      extract_fields record_tokens = Ok (request, http_code, z, referrer))
  ∧ (∀ rq hc z rf,
      extract_fields record_tokens = Ok (rq, hc, z, rf) → int_literal bytes_token z)
  ∧ ((∃ msg, extract_fields record_tokens = Raise (ValueError msg))
     ↔ ¬ ∃ z, int_literal bytes_token z).
Proof.
  intros H5 H51 H6 H7.
  rewrite (extract_fields_eval _ _ _ _ _ H5 H51 H6 H7).
  split; [|split].
  - intros z rf Hz Hrf. apply int_literal_int in Hz. apply py_index_ok in Hrf.
    rewrite Hz. simpl. rewrite Hrf. reflexivity.
  - intros rq hc z rf H. apply rbind_ok in H as (b & Hb & H).
    apply rbind_ok in H as (rf' & _ & [= _ _ -> _]).
    now apply int_ok_literal.
  - rewrite <- int_raise_iff. split.
    + intros (msg & H). destruct (int bytes_token) as [b|e] eqn:E.
      * simpl in H. destruct (py_index record_tokens REFERRER_INDEX) as [rf|e] eqn:E8;
          [discriminate H|].
        apply py_index_raise in E8 as [_ ->]. discriminate H.
      * apply int_raise_ValueError in E as (msg' & ->). now exists msg'.
    + intros (msg & ->). now exists msg.
Qed.

Lemma byte_count_is_int_of_token_witness :
  extract_fields
    ["h"; "-"; "-"; "[t"; "z]"; "GET /bob/f HTTP/1.1"; "200"; " - 42"; "-"]
  = Ok ("/bob/f", "200", -42, "-").
Proof.
  refine (proj1 (byte_count_is_int_of_token
            ["h"; "-"; "-"; "[t"; "z]"; "GET /bob/f HTTP/1.1"; "200"; " - 42"; "-"]
            "GET /bob/f HTTP/1.1" "/bob/f" "200" " - 42"
            eq_refl eq_refl eq_refl eq_refl) (-42) "-" _ eq_refl).
  exact (IntLiteral " " "-" " " "42" "" eq_refl (or_intror (or_intror eq_refl))
           eq_refl ltac:(discriminate) eq_refl eq_refl).
Defined.

(** C4 as stated fails: a line whose byte-count field is [-5] is accepted
    and charges a negative amount to its customer. *)
Lemma byte_count_can_be_negative :
  (st ← for_lines [log_line "GET /bob/f HTTP/1.1" "200" "-5" "http://www.example.com/"]
         Locals.init;
   Ok (Locals.customers_usage st !! "bob"))
  = Ok (Some (-5)).
Proof. vm_compute. reflexivity. Qed.

(** ** Customer id *)

(** C5, as the code has it: the customer charged for a record is element
    1 of the request path split on [/], that is the text between the first
    slash and the next slash or the end, possibly empty;
    [/alice/file.txt] gives [alice]; the line fails exactly when the
    request path holds no slash at all; and the path [/], with nothing
    after its leading slash, gives the empty customer id. *)
Theorem customer_id_is_first_segment :
  (∀ st line st',
      loop_body st line = Ok st' →
      ∃ r, parse_record line = Ok r
           ∧ PyStr.split_sep (pr_request r) "/" !! 1%nat = Some (pr_username r)
           ∧ Locals.customers_usage st'
             = <[pr_username r :=
                   dict_get (Locals.customers_usage st) (pr_username r) 0 + pr_bytes r]>
                 (Locals.customers_usage st))
  ∧ (∀ pre seg rest,
      PyStr.char_in "/" pre = false →
      PyStr.char_in "/" seg = false →
      rest = "" ∨ (∃ t, rest = String "/" t) →
      username_of (pre ++ "/" ++ seg ++ rest) = Ok seg)
  ∧ username_of "/alice/file.txt" = Ok "alice"
  ∧ username_of "/" = Ok ""
  ∧ (∀ request,
      PyStr.char_in "/" request = false ↔ username_of request = Raise IndexError)
  ∧ (∀ st line toks request http_code bytes referrer,
      shlex.split line = Ok toks →
      extract_fields toks = Ok (request, http_code, bytes, referrer) →
      PyStr.char_in "/" request = false →
      loop_body st line = Raise IndexError).
Proof.
  split; [|split; [|split; [|split; [|split]]]].
  - intros st line st' H. apply loop_body_ok in H as (r & Hr & ->).
    exists r. split; [exact Hr|]. split; [|reflexivity].
    apply parse_record_inv in Hr as (toks & _ & _ & Hu & _).
    now apply py_index_ok in Hu.
  - apply username_of_segment.
  - reflexivity.
  - reflexivity.
  - apply username_of_no_slash.
  - intros st line toks rq hc b rf Htoks Hex Hno.
    apply loop_body_raise. unfold parse_record.
    rewrite Htoks. simpl. rewrite Hex. simpl.
    apply username_of_no_slash in Hno. now rewrite Hno.
Qed.

Lemma customer_id_is_first_segment_witness :
  ∃ r, parse_record (log_line "GET /alice/file.txt HTTP/1.1" "200" "10" "-") = Ok r
       ∧ pr_username r = "alice".
Proof.
  destruct (proj1 customer_id_is_first_segment Locals.init
              (log_line "GET /alice/file.txt HTTP/1.1" "200" "10" "-")
              _ eq_refl) as (r & Hr & Hu & _).
  exists r. split; [exact Hr|].
  vm_compute in Hr. injection Hr as <-. reflexivity.
Defined.

(** C5 as stated fails: the request path [/] has no segment after its
    leading slash, yet the line is accepted and its bytes are charged to
    the customer with the empty name. *)
Lemma root_path_is_charged_to_empty_customer :
  (st ← loop_body Locals.init (log_line "GET / HTTP/1.1" "200" "7" "-");
   Ok (Locals.customers_usage st !! ""))
  = Ok (Some 7).
Proof. vm_compute. reflexivity. Qed.

(** ** On-site classification *)

(** C6: a record adds one to the off-site counter exactly when the marker
    [example.com] does not occur in the network location of its referrer;
    the test is containment, so a longer host that contains the marker is
    on-site too. *)
Theorem offsite_iff_marker_not_in_netloc :
  (∀ st line st',
      loop_body st line = Ok st' →
      ∃ r, parse_record line = Ok r
           ∧ urlparse.netloc (pr_referrer r) = Ok (pr_netloc r)
           ∧ (Locals.total_offsite_requests st' = Locals.total_offsite_requests st + 1
              ↔ ¬ substring_of ONSITE (pr_netloc r))
           ∧ (Locals.total_offsite_requests st' = Locals.total_offsite_requests st
              ↔ substring_of ONSITE (pr_netloc r)))
  ∧ (st ← loop_body Locals.init
            (log_line "GET /bob/f HTTP/1.1" "200" "10" "http://www.example.com/page");
     Ok (Locals.total_offsite_requests st)) = Ok 0
  ∧ (st ← loop_body Locals.init
            (log_line "GET /bob/f HTTP/1.1" "200" "10" "http://other.org/page");
     Ok (Locals.total_offsite_requests st)) = Ok 1
  ∧ (st ← loop_body Locals.init
            (log_line "GET /bob/f HTTP/1.1" "200" "10" "http://example.com.other.org/page");
     Ok (Locals.total_offsite_requests st)) = Ok 0.
Proof.
  split; [|split; [|split]]; try (vm_compute; reflexivity).
  intros st line st' H. apply loop_body_ok in H as (r & Hr & ->).
  exists r. split; [exact Hr|].
  apply parse_record_inv in Hr as (toks & _ & _ & _ & Hn). split; [exact Hn|].
  rewrite <- contains_spec. cbn [account Locals.total_offsite_requests].
  unfold is_offsite. destruct (PyStr.contains ONSITE (pr_netloc r)); simpl.
  - split; split; intros H; try congruence; lia.
  - split; split; intros H; try congruence; try lia.
Qed.

Lemma offsite_iff_marker_not_in_netloc_witness :
  ∃ r, parse_record (log_line "GET /bob/f HTTP/1.1" "200" "10" "http://other.org/page")
       = Ok r
       ∧ pr_netloc r = "other.org".
Proof.
  destruct (proj1 offsite_iff_marker_not_in_netloc Locals.init
              (log_line "GET /bob/f HTTP/1.1" "200" "10" "http://other.org/page")
              _ eq_refl) as (r & Hr & _).
  exists r. split; [exact Hr|].
  vm_compute in Hr. injection Hr as <-. reflexivity.
Defined.

(** ** Success filtering *)

(** C7: a record adds one to the frequency of its URL exactly when its
    status token starts with the character [2]; otherwise the frequency
    map is left as it was.  A [404] record leaves the map empty, a [200]
    record counts its URL once. *)
Theorem url_counted_iff_status_starts_with_2 :
  (∀ st line st',
      loop_body st line = Ok st' →
      ∃ r, parse_record line = Ok r
           ∧ ((∃ rest, pr_http_code r = String "2" rest)
              → Locals.popular_urls st'
                = <[pr_request r := dict_get (Locals.popular_urls st) (pr_request r) 0 + 1]>
                    (Locals.popular_urls st))
           ∧ ((¬ ∃ rest, pr_http_code r = String "2" rest)
              → Locals.popular_urls st' = Locals.popular_urls st)
           ∧ (dict_get (Locals.popular_urls st') (pr_request r) 0
              = dict_get (Locals.popular_urls st) (pr_request r) 0 + 1
              ↔ ∃ rest, pr_http_code r = String "2" rest))
  ∧ (st ← loop_body Locals.init
            (log_line "GET /bob/f HTTP/1.1" "404" "10" "-");
     Ok (map_to_list (Locals.popular_urls st))) = Ok []
  ∧ (st ← loop_body Locals.init
            (log_line "GET /bob/f HTTP/1.1" "200" "10" "-");
     Ok (map_to_list (Locals.popular_urls st))) = Ok [("/bob/f", 1)].
Proof.
  split; [|split]; try (vm_compute; reflexivity).
  intros st line st' H. apply loop_body_ok in H as (r & Hr & ->).
  exists r. split; [exact Hr|].
  rewrite <- is_success_spec. cbn [account Locals.popular_urls].
  destruct (is_success (pr_http_code r)).
  - split; [reflexivity|]. split; [intros H; now destruct H|].
    split; [reflexivity|]. intros _.
    unfold dict_get at 1. now rewrite lookup_insert_eq.
  - split; [discriminate|]. split; [reflexivity|].
    split; [intros H; lia | discriminate].
Qed.

Lemma url_counted_iff_status_starts_with_2_witness :
  ∃ r, parse_record (log_line "GET /bob/f HTTP/1.1" "200" "10" "-") = Ok r
       ∧ pr_http_code r = "200".
Proof.
  destruct (proj1 url_counted_iff_status_starts_with_2 Locals.init
              (log_line "GET /bob/f HTTP/1.1" "200" "10" "-")
              _ eq_refl) as (r & Hr & _).
  exists r. split; [exact Hr|].
  vm_compute in Hr. injection Hr as <-. reflexivity.
Defined.

(** ** The loop over the lines of a file *)

Lemma for_lines_app f1 f2 st :
  for_lines (f1 ++ f2)%list st = (st' ← for_lines f1 st; for_lines f2 st').
Proof.
  revert st; induction f1 as [|l f1 IH]; intros st; [reflexivity|].
  cbn [for_lines app]. destruct (loop_body st l) as [st1|e]; [|reflexivity].
  apply IH.
Qed.

(** The first line that fails decides the outcome of the loop. *)
Lemma for_lines_first_failure good bad rest st st' e :
  for_lines good st = Ok st' →
  parse_record bad = Raise e →
  for_lines (good ++ bad :: rest)%list st = Raise e.
Proof.
  intros Hgood Hbad. rewrite for_lines_app, Hgood.
  change (for_lines (bad :: rest) st' = Raise e). cbn [for_lines].
  apply (loop_body_raise st') in Hbad. now rewrite Hbad.
Qed.

Lemma for_lines_raise_member f line e st :
  line ∈ f → parse_record line = Raise e → ∃ e', for_lines f st = Raise e'.
Proof.
  intros Hin Hline. revert st. induction f as [|l f IH]; intros st.
  - now apply elem_of_nil in Hin.
  - cbn [for_lines]. destruct (loop_body st l) as [st1|e1] eqn:E.
    + apply elem_of_cons in Hin as [-> | Hin].
      * apply loop_body_ok in E as (r & Hr & _). congruence.
      * simpl. now apply IH.
    + now exists e1.
Qed.

Lemma for_lines_ok f :
  Forall (λ line, is_ok (parse_record line) = true) f →
  ∀ st, ∃ st', for_lines f st = Ok st'.
Proof.
  induction 1 as [|l f Hl _ IH]; intros st; cbn [for_lines]; [eauto|].
  rewrite loop_body_account. destruct (parse_record l) as [r|e]; [|discriminate].
  simpl. apply IH.
Qed.

Lemma for_lines_ok_inv f st st' :
  for_lines f st = Ok st' →
  Forall (λ line, is_ok (parse_record line) = true) f.
Proof.
  revert st; induction f as [|l f IH]; intros st; cbn [for_lines]; [constructor|].
  intros H. apply rbind_ok in H as (st1 & H1 & H2).
  constructor; [|now apply (IH st1)].
  apply loop_body_ok in H1 as (r & -> & _). reflexivity.
Qed.

Lemma malformed_raises line :
  malformed line → ∃ e, parse_record line = Raise e.
Proof.
  unfold parse_record. intros [e H | toks H Hlen | toks tok e H Htok Hint].
  - exists e. now rewrite H.
  - rewrite H. simpl. destruct (extract_fields toks) as [[[[rq hc] b] rf]|e] eqn:E.
    + apply extract_fields_inv in E as (? & ? & _ & _ & _ & _ & _ & H8).
      apply lookup_lt_Some in H8. lia.
    + now exists e.
  - rewrite H. simpl. destruct (extract_fields toks) as [[[[rq hc] b] rf]|e'] eqn:E.
    + apply extract_fields_inv in E as (? & bt & _ & _ & _ & H7 & Hb & _).
      congruence.
    + now exists e'.
Qed.

(** ** The store monad *)

Lemma M_bind_unfold {A B} (m : M A) (k : A → M B) h :
  (m ≫= k) h = match m h with Ok (a, h') => k a h' | Raise e => Raise e end.
Proof. reflexivity. Qed.

Lemma parse_log_file_unfold f h :
  parse_log_file f h
  = match for_lines f Locals.init with
    | Ok st =>
        Ok (mkLogResults
              [Locals.total_offsite_requests st; Locals.total_records st]
              (List.length h) (S (List.length h)),
            (h ++ [Locals.customers_usage st; Locals.popular_urls st])%list)
    | Raise e => Raise e
    end.
Proof.
  unfold parse_log_file, lift, new_dict, LogResults_init, mret, M_ret, mbind, M_bind.
  destruct (for_lines f Locals.init) as [st|e]; [|reflexivity].
  cbn [List.length Nat.eqb].
  rewrite length_app, Nat.add_1_r, <- app_assoc. reflexivity.
Qed.

Lemma for_each_total {A} (body : A → M unit) :
  (∀ x h, ∃ h', body x h = Ok (tt, h')) →
  ∀ l h, ∃ h', for_each l body h = Ok (tt, h').
Proof.
  intros Hbody. induction l as [|x l IH]; intros h; cbn [for_each].
  - now exists h.
  - rewrite M_bind_unfold. destruct (Hbody x h) as (h1 & ->). apply IH.
Qed.

Lemma sum_dicts_total dst d1 d2 h :
  ∃ h', sum_dicts dst d1 d2 h = Ok (tt, h').
Proof.
  unfold sum_dicts. rewrite !M_bind_unfold. unfold dict_keys.
  rewrite !M_bind_unfold. apply for_each_total.
  intros k h0. rewrite !M_bind_unfold. unfold heap_get.
  rewrite !M_bind_unfold. unfold heap_setitem. eauto.
Qed.

(** [reduce_records] succeeds as soon as both records have two counters,
    and then its counters are the sums. *)
Lemma reduce_records_requests rec1 rec2 h a0 a1 ra b0 b1 rb :
  requests rec1 = a0 :: a1 :: ra →
  requests rec2 = b0 :: b1 :: rb →
  ∃ h',
    reduce_records rec1 rec2 h
    = Ok (mkLogResults [a0 + b0; a1 + b1]
            default_customer_usage default_popular_urls, h').
Proof.
  intros Ha Hb. unfold reduce_records. rewrite M_bind_unfold.
  destruct (sum_dicts_total (customer_usage LogResults_new)
              (customer_usage rec1) (customer_usage rec2) h) as (h1 & ->).
  rewrite Ha, Hb. cbn [py_index nth_error].
  repeat (rewrite M_bind_unfold; cbn [lift]).
  destruct (sum_dicts_total default_popular_urls
              (popular_urls rec1) (popular_urls rec2) h1) as (h2 & H2).
  exists h2. change (popular_urls LogResults_new) with default_popular_urls.
  change (customer_usage LogResults_new) with default_customer_usage.
  cbn [popular_urls]. rewrite H2. reflexivity.
Qed.

(** ** What [sum_dicts] leaves in the store

    The destination keeps the keys it had and receives, for every key of
    either argument, the sum of the two values.  The arguments may be the
    destination itself: every key is read before it is written, and no
    other key is touched in between. *)

Section sum_dicts.
Variables dst d1 d2 : loc.

Lemma for_each_sum_step ks h :
  for_each ks
    (λ k, a ← heap_get d1 k 0; b ← heap_get d2 k 0; heap_setitem dst k (a + b)) h
  = Ok (tt, foldl (sum_step dst d1 d2) h ks).
Proof.
  revert h; induction ks as [|k ks IH]; intros h; [reflexivity|].
  cbn [for_each foldl]. rewrite M_bind_unfold.
  replace ((heap_get d1 k 0 ≫= λ a, heap_get d2 k 0 ≫= λ b, heap_setitem dst k (a + b)) h)
    with (Ok (tt, sum_step dst d1 d2 h k) : result (unit * heap)) by reflexivity.
  apply IH.
Qed.

Lemma deref_insert h l l' d :
  (l < List.length h)%nat →
  deref (<[l := d]> h) l' = if decide (l = l') then d else deref h l'.
Proof.
  intros Hl. unfold deref. case_decide as E.
  - subst l'. now rewrite list_lookup_insert_eq.
  - now rewrite list_lookup_insert_ne.
Qed.

Lemma foldl_sum_step (gA gB : string → Z) ks : ∀ h,
  NoDup ks →
  (dst < List.length h)%nat →
  (∀ k, k ∈ ks → dict_get (deref h d1) k 0 = gA k ∧ dict_get (deref h d2) k 0 = gB k) →
  ∃ D',
    foldl (sum_step dst d1 d2) h ks = <[dst := D']> h
    ∧ ∀ k, D' !! k = if decide (k ∈ ks) then Some (gA k + gB k)
                      else deref h dst !! k.
Proof.
  induction ks as [|k ks IH]; intros h Hnd Hdst Hget.
  - exists (deref h dst). split.
    + cbn [foldl]. unfold deref.
      destruct (lookup_lt_is_Some_2 h dst Hdst) as (d & Hd).
      rewrite Hd. cbn [default]. symmetry. now apply list_insert_id.
    + intros k. case_decide as E; [now apply elem_of_nil in E | reflexivity].
  - apply NoDup_cons in Hnd as [Hk Hnd]. cbn [foldl].
    destruct (Hget k) as [HA HB]; [left|].
    set (h1 := sum_step dst d1 d2 h k).
    assert (Hlen : (dst < List.length h1)%nat)
      by (unfold h1, sum_step; now rewrite length_insert).
    assert (Hread : ∀ l k', k' ≠ k → dict_get (deref h1 l) k' 0 = dict_get (deref h l) k' 0).
    { intros l k' Hne. unfold h1, sum_step. rewrite deref_insert by assumption.
      case_decide as E; [|reflexivity]. subst l.
      unfold dict_get. now rewrite lookup_insert_ne. }
    destruct (IH h1 Hnd Hlen) as (D' & Hfold & HD').
    { intros k' Hk'. assert (k' ≠ k) by (intros ->; contradiction).
      rewrite !Hread by assumption. apply Hget. now right. }
    exists D'. split.
    + rewrite Hfold. unfold h1, sum_step. now rewrite list_insert_insert_eq.
    + intros k'. rewrite HD'. unfold h1 at 1, sum_step.
      rewrite deref_insert by assumption.
      destruct (decide (dst = dst)) as [_ | ?]; [|congruence].
      destruct (decide (k' = k)) as [-> | Hne].
      * rewrite decide_False by assumption.
        rewrite decide_True by left.
        rewrite lookup_insert_eq. now rewrite HA, HB.
      * rewrite lookup_insert_ne by congruence.
        destruct (decide (k' ∈ ks)) as [Hin | Hnin].
        -- rewrite decide_True by now right. reflexivity.
        -- rewrite decide_False; [reflexivity|].
           intros [?|?]%elem_of_cons; contradiction.
Qed.

Lemma keywise_sum_lookup (A B : gmap string Z) k :
  keywise_sum A B !! k
  = if decide (k ∈ dom A ∪ dom B) then Some (dict_get A k 0 + dict_get B k 0)
    else None.
Proof.
  unfold keywise_sum, dict_get. rewrite lookup_union_with.
  case_decide as E.
  - apply elem_of_union in E. rewrite !elem_of_dom in E.
    destruct (A !! k), (B !! k); cbn; try (f_equal; lia).
    destruct E as [[? [=]] | [? [=]]].
  - rewrite elem_of_union, !elem_of_dom in E.
    destruct (A !! k) eqn:EA; [exfalso; apply E; left; eauto|].
    destruct (B !! k) eqn:EB; [exfalso; apply E; right; eauto|].
    reflexivity.
Qed.

Theorem sum_dicts_store h :
  (dst < List.length h)%nat →
  sum_dicts dst d1 d2 h
  = Ok (tt, <[dst := keywise_sum (deref h d1) (deref h d2) ∪ deref h dst]> h).
Proof.
  intros Hdst. unfold sum_dicts, dict_keys.
  rewrite !M_bind_unfold, for_each_sum_step.
  set (A := deref h d1). set (B := deref h d2).
  destruct (foldl_sum_step (λ k, dict_get A k 0) (λ k, dict_get B k 0)
              (py_set (elements (dom A) ++ elements (dom B))%list) h)
    as (D' & -> & HD'); [unfold py_set; apply NoDup_elements | exact Hdst | auto |].
  do 3 f_equal. apply map_eq. intros k. rewrite HD'.
  rewrite lookup_union, keywise_sum_lookup.
  assert (Hin : k ∈ py_set (elements (dom A) ++ elements (dom B))%list
                ↔ k ∈ dom A ∪ dom B).
  { unfold py_set. rewrite elem_of_elements, elem_of_list_to_set, elem_of_app,
      !elem_of_elements, elem_of_union. reflexivity. }
  destruct (decide (k ∈ dom A ∪ dom B)) as [E | E].
  - rewrite decide_True by now apply Hin.
    now destruct (deref h dst !! k).
  - rewrite decide_False by now rewrite Hin.
    now destruct (deref h dst !! k).
Qed.

End sum_dicts.

(** ** The merge on the store *)

(** The store after [reduce_records]: the result always lives in the two
    default dicts, which receive the key-wise sums on top of whatever they
    held before. *)
Theorem reduce_records_store rec1 rec2 (h : heap) a0 a1 ra b0 b1 rb :
  requests rec1 = a0 :: a1 :: ra →
  requests rec2 = b0 :: b1 :: rb →
  (2 ≤ List.length h)%nat →
  let h1 :=
    <[default_customer_usage :=
        keywise_sum (deref h (customer_usage rec1)) (deref h (customer_usage rec2))
        ∪ deref h default_customer_usage]> h in
  let h2 :=
    <[default_popular_urls :=
        keywise_sum (deref h1 (popular_urls rec1)) (deref h1 (popular_urls rec2))
        ∪ deref h1 default_popular_urls]> h1 in
  reduce_records rec1 rec2 h
  = Ok (mkLogResults [a0 + b0; a1 + b1]
          default_customer_usage default_popular_urls, h2).
Proof.
  intros Ha Hb Hlen h1 h2. unfold reduce_records.
  change (customer_usage LogResults_new) with default_customer_usage.
  change (popular_urls LogResults_new) with default_popular_urls.
  rewrite M_bind_unfold, sum_dicts_store by (unfold default_customer_usage; lia).
  fold h1. rewrite Ha, Hb. cbn [py_index nth_error].
  repeat (rewrite M_bind_unfold; cbn [lift]).
  cbn [popular_urls].
  rewrite sum_dicts_store
    by (unfold h1, default_popular_urls; rewrite length_insert; lia).
  reflexivity.
Qed.

(** On a store whose default dicts are still empty, and for records that
    own their dicts, the merge is the intended one: counters add up, maps
    are the key-wise sums, and the arguments are left alone. *)
Corollary reduce_records_pristine rec1 rec2 (h : heap) a0 a1 ra b0 b1 rb :
  requests rec1 = a0 :: a1 :: ra →
  requests rec2 = b0 :: b1 :: rb →
  (2 ≤ List.length h)%nat →
  deref h default_customer_usage = ∅ →
  deref h default_popular_urls = ∅ →
  (2 ≤ customer_usage rec1)%nat → (2 ≤ popular_urls rec1)%nat →
  (2 ≤ customer_usage rec2)%nat → (2 ≤ popular_urls rec2)%nat →
  ∃ r h',
    reduce_records rec1 rec2 h = Ok (r, h')
    ∧ contents h' r
      = ([a0 + b0; a1 + b1],
         keywise_sum (deref h (customer_usage rec1)) (deref h (customer_usage rec2)),
         keywise_sum (deref h (popular_urls rec1)) (deref h (popular_urls rec2)))
    ∧ contents h' rec1 = contents h rec1
    ∧ contents h' rec2 = contents h rec2.
Proof.
  intros Ha Hb Hlen Hcu Hpu H1c H1p H2c H2p.
  eexists _, _. split; [exact (reduce_records_store _ _ h _ _ _ _ _ _ Ha Hb Hlen)|].
  unfold contents, default_customer_usage, default_popular_urls in *.
  cbn [requests customer_usage popular_urls].
  assert (Hlen1 : ∀ d : gmap string Z, (1 < List.length (<[0%nat := d]> h))%nat)
    by (intros; rewrite length_insert; lia).
  rewrite !(deref_insert _ 1%nat) by apply Hlen1.
  rewrite !(deref_insert _ 0%nat) by lia.
  repeat case_decide; try lia.
  rewrite Hcu, Hpu, !(right_id_L ∅ (∪)). auto.
Qed.

(** ** The merge that is meant

    Key-wise sum is a commutative monoid on dicts, with the empty dict as
    its unit; on a store whose default dicts are empty the code computes
    it. *)

Lemma keywise_sum_comm (d1 d2 : gmap string Z) :
  keywise_sum d1 d2 = keywise_sum d2 d1.
Proof.
  apply map_eq. intros k. unfold keywise_sum. rewrite !lookup_union_with.
  destruct (d1 !! k), (d2 !! k); cbn; try reflexivity. f_equal. lia.
Qed.

Lemma keywise_sum_assoc (d1 d2 d3 : gmap string Z) :
  keywise_sum (keywise_sum d1 d2) d3 = keywise_sum d1 (keywise_sum d2 d3).
Proof.
  apply map_eq. intros k. unfold keywise_sum. rewrite !lookup_union_with.
  destruct (d1 !! k), (d2 !! k), (d3 !! k); cbn; try reflexivity. f_equal. lia.
Qed.

Lemma keywise_sum_empty_r (d : gmap string Z) : keywise_sum d ∅ = d.
Proof.
  apply map_eq. intros k. unfold keywise_sum.
  rewrite lookup_union_with, lookup_empty. now destruct (d !! k).
Qed.

(** The end-to-end scenario of the specification: file A holds an on-site
    success record of 100 bytes for [bob] and an off-site record, file B
    an on-site success record of 50 bytes for [bob] on the same URL. *)
Example end_to_end :
  run (agg ← main_aggregate
               [[log_line "GET /bob/x HTTP/1.1" "200" "100" "http://www.example.com/";
                 log_line "GET /bob/y HTTP/1.1" "404" "0" "http://other.org/"];
                [log_line "GET /bob/x HTTP/1.1" "200" "50" "http://www.example.com/"]];
       inspect (λ h, contents h agg))
  = Ok ([1; 3], {["bob" := 150]}, {["/bob/x" := 2]}).
Proof. vm_compute. reflexivity. Qed.

(** ** The merge laws on the running program *)

(** C1, evaluated on the code: merging the result of a one-line file with
    [LogResults()] returns the counters and maps of that result, but the
    maps of the identity element, empty before the call, hold the maps of
    the result after it: the merged record is built on the very dicts
    that every [LogResults()] shares. *)
Theorem merge_with_identity_overwrites_identity :
  run (r ← parse_log_file file_bob;
       before ← inspect (λ h, contents h LogResults_new);
       merged ← reduce_records r LogResults_new;
       inspect (λ h, (before, contents h r, contents h merged,
                      contents h LogResults_new)))
  = Ok (([0; 0; 0], ∅, ∅),
        ([0; 1], {["bob" := 20]}, {["/bob/b" := 1]}),
        ([0; 1], {["bob" := 20]}, {["/bob/b" := 1]}),
        ([0; 0; 0], {["bob" := 20]}, {["/bob/b" := 1]})).
Proof. vm_compute. reflexivity. Qed.

(** C2, evaluated on the code: after a first merge, the merge of the
    results of two other files still holds the keys of the first merge,
    so it is not the key-wise sum of its arguments; and when both sides of
    the associativity law are computed one after the other, the customer
    of the first file ends up counted twice. *)
Theorem later_merge_is_not_keywise_sum :
  run (a ← parse_log_file file_alice;
       b ← parse_log_file file_bob;
       c ← parse_log_file file_carol;
       ab ← reduce_records a b;
       bc ← reduce_records b c;
       inspect (λ h, (deref h (customer_usage bc),
                      keywise_sum (deref h (customer_usage b))
                                  (deref h (customer_usage c)))))
  = Ok ({["alice" := 10; "bob" := 20; "carol" := 30]},
        {["bob" := 20; "carol" := 30]})
  ∧ run (a ← parse_log_file file_alice;
         b ← parse_log_file file_bob;
         c ← parse_log_file file_carol;
         ab ← reduce_records a b;
         lhs ← reduce_records ab c;
         bc ← reduce_records b c;
         rhs ← reduce_records a bc;
         inspect (λ h, (deref h (customer_usage lhs), deref h (customer_usage rhs),
                        keywise_sum (deref h (customer_usage a))
                          (keywise_sum (deref h (customer_usage b))
                                       (deref h (customer_usage c))))))
    = Ok ({["alice" := 20; "bob" := 20; "carol" := 30]},
          {["alice" := 20; "bob" := 20; "carol" := 30]},
          {["alice" := 10; "bob" := 20; "carol" := 30]}).
Proof. split; vm_compute; reflexivity. Qed.

(** ** Error propagation *)

Lemma parse_log_file_raise f h e :
  for_lines f Locals.init = Raise e → parse_log_file f h = Raise e.
Proof. intros H. now rewrite parse_log_file_unfold, H. Qed.

(** Once a file of the run fails, the run fails, whatever comes before
    and after it. *)
Lemma for_log_files_raise before log_file after :
  (∀ h, ∃ e, parse_log_file log_file h = Raise e) →
  ∀ aggregate_results h,
    ∃ e, for_log_files (before ++ log_file :: after)%list aggregate_results h = Raise e.
Proof.
  intros Hfile. induction before as [|f before IH]; intros agg h.
  - cbn [app for_log_files]. rewrite M_bind_unfold.
    destruct (Hfile h) as (e & ->). now exists e.
  - cbn [app for_log_files]. rewrite M_bind_unfold.
    destruct (parse_log_file f h) as [[r h1]|e]; [|now exists e].
    rewrite M_bind_unfold.
    destruct (reduce_records agg r h1) as [[agg' h2]|e]; [|now exists e].
    apply IH.
Qed.

(** C3: a file with a malformed line (one that cannot be tokenized, that
    has fewer than nine tokens, or whose byte-count token is not an
    integer) makes [parse_log_file] raise instead of returning a result,
    and makes the whole run raise, wherever the file stands among the
    files of the run; the lines after the first failing one play no part. *)
Theorem malformed_line_aborts_run (log_file : list string) (line : string) :
  line ∈ log_file →
  malformed line →
  (∀ h, ∃ e, parse_log_file log_file h = Raise e)
  ∧ (∀ before after h,
       ∃ e, main_aggregate (before ++ log_file :: after)%list h = Raise e)
  ∧ (∀ good rest st e h,
       for_lines good Locals.init = Ok st →
       parse_record line = Raise e →
       parse_log_file (good ++ line :: rest)%list h = Raise e).
Proof.
  intros Hin Hbad.
  assert (Hfile : ∀ h, ∃ e, parse_log_file log_file h = Raise e).
  { intros h. destruct (malformed_raises line Hbad) as (e & He).
    destruct (for_lines_raise_member log_file line e Locals.init Hin He) as (e' & He').
    exists e'. now apply parse_log_file_raise. }
  split; [exact Hfile|]. split.
  - intros before after h. unfold main_aggregate.
    now apply for_log_files_raise.
  - intros good rest st e h Hgood He. apply parse_log_file_raise.
    now apply (for_lines_first_failure good line rest Locals.init st).
Qed.

Lemma malformed_line_aborts_run_witness :
  ∃ e, parse_log_file
         (file_bob ++ [log_line "GET /bob/b HTTP/1.1" "200" "-" "-"])%list
         initial_heap = Raise e.
Proof.
  refine (proj1 (malformed_line_aborts_run
            (file_bob ++ [log_line "GET /bob/b HTTP/1.1" "200" "-" "-"])%list
            (log_line "GET /bob/b HTTP/1.1" "200" "-" "-") _ _) initial_heap).
  - apply elem_of_app. right. left.
  - eapply (bad_byte_count _ _ "-"); [vm_compute; reflexivity | reflexivity
                                      | vm_compute; reflexivity].
Defined.

(** ** Counters *)

Lemma for_lines_counters f : ∀ st st',
  for_lines f st = Ok st' →
  Locals.total_records st' = Locals.total_records st + Z.of_nat (List.length f)
  ∧ Locals.total_offsite_requests st ≤ Locals.total_offsite_requests st'
  ∧ Locals.total_offsite_requests st' - Locals.total_offsite_requests st
    ≤ Z.of_nat (List.length f).
Proof.
  induction f as [|l f IH]; intros st st' H; cbn [for_lines] in H.
  - injection H as <-. cbn [List.length]. lia.
  - apply rbind_ok in H as (st1 & H1 & H2).
    apply loop_body_ok in H1 as (r & _ & ->).
    apply IH in H2 as (Ht & Ho1 & Ho2).
    cbn [account Locals.total_records Locals.total_offsite_requests] in *.
    cbn [List.length]. rewrite Nat2Z.inj_succ.
    destruct (is_offsite (pr_netloc r)); lia.
Qed.

(** C8: the two counters of a result of [parse_log_file] satisfy
    [0 <= offsite <= total], and [reduce_records] applied to two results
    that satisfy it returns a result that satisfies it. *)
Theorem offsite_le_total :
  (∀ f h r h',
      parse_log_file f h = Ok (r, h') →
      ∃ o t, requests r = [o; t] ∧ 0 ≤ o ≤ t)
  ∧ (∀ f h r h', parse_log_file f h = Ok (r, h') → counters_ok r)
  ∧ (∀ rec1 rec2 h,
      counters_ok rec1 → counters_ok rec2 →
      ∃ r h', reduce_records rec1 rec2 h = Ok (r, h') ∧ counters_ok r)
  ∧ (∀ rec1 rec2 h r h',
      counters_ok rec1 → counters_ok rec2 →
      reduce_records rec1 rec2 h = Ok (r, h') → counters_ok r).
Proof.
  assert (Hparse : ∀ f h r h',
      parse_log_file f h = Ok (r, h') → ∃ o t, requests r = [o; t] ∧ 0 ≤ o ≤ t).
  { intros f h r h' H. rewrite parse_log_file_unfold in H.
    destruct (for_lines f Locals.init) as [st|e] eqn:E; [|discriminate].
    injection H as <- _. apply for_lines_counters in E as (Ht & Ho1 & Ho2).
    cbn [Locals.init Locals.total_records Locals.total_offsite_requests] in *.
    eexists _, _. split; [reflexivity|]. lia. }
  assert (Hred : ∀ rec1 rec2 h,
      counters_ok rec1 → counters_ok rec2 →
      ∃ r h', reduce_records rec1 rec2 h = Ok (r, h') ∧ counters_ok r).
  { intros rec1 rec2 h (a0 & a1 & ra & Ha & Hale) (b0 & b1 & rb & Hb & Hble).
    destruct (reduce_records_requests rec1 rec2 h _ _ _ _ _ _ Ha Hb) as (h' & H).
    eexists _, h'. split; [exact H|].
    exists (a0 + b0), (a1 + b1), []. split; [reflexivity | lia]. }
  split; [exact Hparse|]. split; [|split; [exact Hred|]].
  - intros f h r h' H. destruct (Hparse f h r h' H) as (o & t & Hr & Hle).
    now exists o, t, [].
  - intros rec1 rec2 h r h' H1 H2 H.
    destruct (Hred rec1 rec2 h H1 H2) as (r0 & h0 & H0 & Hok). congruence.
Qed.

Lemma offsite_le_total_witness :
  ∃ r h', reduce_records (mkLogResults [1; 2] 2%nat 3%nat)
            (mkLogResults [0; 3] 4%nat 5%nat) initial_heap = Ok (r, h')
          ∧ counters_ok r.
Proof.
  refine (proj1 (proj2 (proj2 offsite_le_total))
            (mkLogResults [1; 2] 2%nat 3%nat) (mkLogResults [0; 3] 4%nat 5%nat)
            initial_heap _ _).
  - exists 1, 2, []. split; [reflexivity | lia].
  - exists 0, 3, []. split; [reflexivity | lia].
Defined.

(** ** Conservation *)

Lemma sum_values_insert_fresh (m : gmap string Z) k v :
  m !! k = None → sum_values (<[k := v]> m) = v + sum_values m.
Proof.
  intros H. unfold sum_values.
  rewrite map_fold_insert_L;
    [reflexivity | intros j1 j2 z1 z2 y _ _ _; apply Z.add_shuffle3 | exact H].
Qed.

(** Charging [b] to customer [k] adds [b] to the sum of all usages. *)
Lemma sum_values_charge (m : gmap string Z) k b :
  sum_values (<[k := dict_get m k 0 + b]> m) = sum_values m + b.
Proof.
  unfold dict_get. destruct (m !! k) as [v|] eqn:E; cbn [default].
  - rewrite <- (insert_delete_id m k v E) at 2.
    rewrite <- insert_delete_eq.
    rewrite !sum_values_insert_fresh by apply lookup_delete_eq.
    unfold id. lia.
  - rewrite sum_values_insert_fresh by exact E. unfold id. lia.
Qed.

Lemma dict_get_charge (m : gmap string Z) k b k' :
  dict_get (<[k := dict_get m k 0 + b]> m) k' 0
  = if decide (k = k') then dict_get m k' 0 + b else dict_get m k' 0.
Proof.
  unfold dict_get at 1. rewrite lookup_insert.
  case_decide as E; [now subst | reflexivity].
Qed.

Lemma bytes_of_cons customer r rs :
  bytes_of customer (r :: rs)
  = if decide (pr_username r = customer)
    then pr_bytes r + bytes_of customer rs
    else bytes_of customer rs.
Proof.
  unfold bytes_of. rewrite filter_cons. now case_decide.
Qed.

Lemma for_lines_conservation f : ∀ st st',
  for_lines f st = Ok st' →
  ∃ rs,
    Forall2 (λ line r, parse_record line = Ok r) f rs
    ∧ sum_values (Locals.customers_usage st')
      = sum_values (Locals.customers_usage st) + sum_list (pr_bytes <$> rs)
    ∧ ∀ customer,
        dict_get (Locals.customers_usage st') customer 0
        = dict_get (Locals.customers_usage st) customer 0 + bytes_of customer rs.
Proof.
  induction f as [|l f IH]; intros st st' H; cbn [for_lines] in H.
  - injection H as <-. exists []. split; [constructor|].
    split; [cbn; lia | intros; cbn; lia].
  - apply rbind_ok in H as (st1 & H1 & H2).
    apply loop_body_ok in H1 as (r & Hr & ->).
    apply IH in H2 as (rs & Hrs & Hsum & Hper).
    exists (r :: rs). split; [now constructor|]. split.
    + rewrite Hsum. cbn [account Locals.customers_usage].
      rewrite sum_values_charge. cbn [fmap list_fmap sum_list foldr].
      fold (sum_list (pr_bytes <$> rs)). lia.
    + intros customer. rewrite Hper. cbn [account Locals.customers_usage].
      rewrite dict_get_charge, bytes_of_cons. case_decide; lia.
Qed.

Lemma deref_app_l (h : heap) d1 d2 :
  deref (h ++ [d1; d2])%list (List.length h) = d1.
Proof.
  unfold deref. rewrite lookup_app_r by lia.
  now rewrite Nat.sub_diag.
Qed.

(** C10: when every line of a file parses, [parse_log_file] returns a
    result whose total counter is the number of lines, whose usages sum
    to the sum of the byte counts of the lines, and in which every
    customer is charged the bytes of the lines of that customer. *)
Theorem counts_and_bytes_conserved (f : list string) (h : heap) :
  Forall (λ line, is_ok (parse_record line) = true) f →
  ∃ r h' rs,
    parse_log_file f h = Ok (r, h')
    ∧ Forall2 (λ line rec, parse_record line = Ok rec) f rs
    ∧ requests r !! 1%nat = Some (Z.of_nat (List.length f))
    ∧ sum_values (deref h' (customer_usage r)) = sum_list (pr_bytes <$> rs)
    ∧ ∀ customer,
        dict_get (deref h' (customer_usage r)) customer 0 = bytes_of customer rs.
Proof.
  intros Hall. destruct (for_lines_ok f Hall Locals.init) as (st & Hst).
  destruct (for_lines_conservation f _ _ Hst) as (rs & Hrs & Hsum & Hper).
  destruct (for_lines_counters f _ _ Hst) as (Ht & _).
  eexists _, _, rs. rewrite parse_log_file_unfold, Hst.
  split; [reflexivity|]. split; [exact Hrs|].
  cbn [requests customer_usage]. rewrite deref_app_l.
  split; [|split].
  - cbn. f_equal. rewrite Ht. cbn. lia.
  - rewrite Hsum. cbn [Locals.init Locals.customers_usage].
    unfold sum_values. rewrite map_fold_empty. lia.
  - intros customer. rewrite Hper. cbn [Locals.init Locals.customers_usage].
    unfold dict_get at 1. rewrite lookup_empty. cbn. lia.
Qed.

Lemma counts_and_bytes_conserved_witness :
  ∃ r h' rs,
    parse_log_file (file_alice ++ file_bob ++ file_alice)%list initial_heap = Ok (r, h')
    ∧ requests r !! 1%nat = Some 3
    ∧ sum_values (deref h' (customer_usage r)) = sum_list (pr_bytes <$> rs).
Proof.
  destruct (counts_and_bytes_conserved
              (file_alice ++ file_bob ++ file_alice)%list initial_heap)
    as (r & h' & rs & H & _ & Ht & Hsum & _).
  - repeat constructor.
  - exists r, h', rs. auto.
Defined.

(** ** The most popular URLs *)

Section top_urls.
Implicit Types (x y : string * Z) (l items : list (string * Z)).

Lemma insert_desc_perm x l : insert_desc x l ≡ₚ x :: l.
Proof.
  induction l as [|y l IH]; cbn [insert_desc]; [reflexivity|].
  destruct (x.2 <? y.2); [|reflexivity].
  rewrite IH. apply perm_swap.
Qed.

Lemma sorted_desc_perm items : sorted_desc items ≡ₚ items.
Proof.
  induction items as [|x items IH]; [reflexivity|].
  cbn [sorted_desc foldr]. rewrite insert_desc_perm.
  now apply perm_skip.
Qed.

Lemma insert_desc_sorted x l :
  StronglySorted count_ge l → StronglySorted count_ge (insert_desc x l).
Proof.
  induction 1 as [|y l Hl IH Hy]; cbn [insert_desc].
  - repeat constructor.
  - destruct (x.2 <? y.2) eqn:E.
    + apply Z.ltb_lt in E. constructor; [exact IH|].
      rewrite insert_desc_perm. constructor; [unfold count_ge; lia | exact Hy].
    + apply Z.ltb_ge in E. constructor; [now constructor|].
      constructor; [exact E|].
      eapply Forall_impl; [exact Hy|]. unfold count_ge. intros z Hz. lia.
Qed.

Lemma sorted_desc_sorted items : StronglySorted count_ge (sorted_desc items).
Proof.
  induction items as [|x items IH]; [constructor|].
  now apply insert_desc_sorted.
Qed.

(** With pairwise distinct counts the order of the items does not
    matter. *)
Lemma sorted_desc_distinct_counts items items' :
  NoDup (snd <$> items) → items ≡ₚ items' →
  sorted_desc items = sorted_desc items'.
Proof.
  intros Hnd Hperm.
  apply (StronglySorted_unique_strong count_ge);
    [|apply sorted_desc_sorted..|now rewrite !sorted_desc_perm].
  intros x1 x2 H1 H2 Hle1 Hle2.
  rewrite sorted_desc_perm in H1. rewrite sorted_desc_perm, <- Hperm in H2.
  unfold count_ge in *. assert (E : x1.2 = x2.2) by lia.
  apply list_elem_of_lookup in H1 as (i & Hi).
  apply list_elem_of_lookup in H2 as (j & Hj).
  assert (i = j) as ->.
  { apply (NoDup_lookup (snd <$> items) i j (x1.2)); [exact Hnd|..].
    - now rewrite list_lookup_fmap, Hi.
    - now rewrite list_lookup_fmap, Hj, E. }
  congruence.
Qed.

Lemma top_urls_spec limit items :
  let out := top_urls limit items in
  StronglySorted count_ge out
  ∧ List.length out = Nat.min limit (List.length items)
  ∧ ∃ rest, (out ++ rest)%list ≡ₚ items
            ∧ ∀ x y, x ∈ out → y ∈ rest → y.2 ≤ x.2.
Proof.
  intros out. unfold out, top_urls.
  pose proof (sorted_desc_sorted items) as Hs.
  rewrite <- (take_drop limit (sorted_desc items)) in Hs.
  apply StronglySorted_app in Hs as (Hcross & Htake & _).
  split; [exact Htake|]. split.
  - rewrite length_take. now rewrite (Permutation_length (sorted_desc_perm items)).
  - exists (drop limit (sorted_desc items)). split.
    + rewrite take_drop. apply sorted_desc_perm.
    + intros x y Hx Hy. exact (Hcross x y Hx Hy).
Qed.

End top_urls.

(** C9: from the items of the frequency map, in whatever order the dict
    yields them, the report is sorted by descending count, has the length
    of the limit (or of the map if it is smaller), consists of entries of
    the map, and leaves out only entries whose count is not above any
    reported one; the limit of the script is 10; the frequencies
    [/a:5, /b:9, /c:1] with limit 2 give [(/b,9), (/a,5)] for every order
    of the items; and two entries with equal counts come out in the order
    the dict yields them. *)
Theorem top_urls_sorted_and_truncated :
  (∀ (url_frequency : gmap string Z) (items : list (string * Z)) (limit : nat),
      items ≡ₚ map_to_list url_frequency →
      let out := top_urls limit items in
      StronglySorted count_ge out
      ∧ List.length out = Nat.min limit (size url_frequency)
      ∧ (∀ x, x ∈ out → url_frequency !! x.1 = Some x.2)
      ∧ ∃ rest, (out ++ rest)%list ≡ₚ items
                ∧ ∀ x y, x ∈ out → y ∈ rest → y.2 ≤ x.2)
  ∧ (∀ items, main_popular_urls items = top_urls 10 items)
  ∧ (∀ items : list (string * Z),
      items ≡ₚ map_to_list ({["/a" := 5; "/b" := 9; "/c" := 1]} : gmap string Z) →
      top_urls 2 items = [("/b", 9); ("/a", 5)])
  ∧ (top_urls 1 [("/a", 5); ("/b", 5)] = [("/a", 5)]
     ∧ top_urls 1 [("/b", 5); ("/a", 5)] = [("/b", 5)]
     ∧ [("/a", 5); ("/b", 5)]
       ≡ₚ map_to_list ({["/a" := 5; "/b" := 5]} : gmap string Z)
     ∧ [("/b", 5); ("/a", 5)]
       ≡ₚ map_to_list ({["/a" := 5; "/b" := 5]} : gmap string Z)).
Proof.
  split; [|split; [|split]].
  - intros m items limit Hperm out.
    destruct (top_urls_spec limit items) as (Hs & Hlen & rest & Hrest & Hcross).
    fold out in Hs, Hlen, Hrest, Hcross.
    split; [exact Hs|]. split; [|split].
    + rewrite Hlen, (Permutation_length Hperm). now rewrite length_map_to_list.
    + intros [k v] Hx. apply elem_of_map_to_list. rewrite <- Hperm, <- Hrest.
      apply elem_of_app. now left.
    + now exists rest.
  - reflexivity.
  - intros items Hperm. unfold top_urls.
    assert (E : map_to_list ({["/a" := 5; "/b" := 9; "/c" := 1]} : gmap string Z)
                = [("/c", 1); ("/a", 5); ("/b", 9)]) by (vm_compute; reflexivity).
    rewrite E in Hperm.
    assert (Hnd : NoDup (snd <$> items)).
    { rewrite Hperm. apply (bool_decide_unpack _). vm_compute. exact I. }
    rewrite (sorted_desc_distinct_counts _ _ Hnd Hperm).
    vm_compute. reflexivity.
  - split; [reflexivity|]. split; [reflexivity|].
    assert (E : map_to_list ({["/a" := 5; "/b" := 5]} : gmap string Z)
                = [("/a", 5); ("/b", 5)]) by (vm_compute; reflexivity).
    rewrite E. split; [reflexivity | apply perm_swap].
Qed.

Lemma top_urls_sorted_and_truncated_witness :
  top_urls 2 [("/a", 5); ("/b", 9); ("/c", 1)] = [("/b", 9); ("/a", 5)].
Proof.
  apply (proj1 (proj2 (proj2 top_urls_sorted_and_truncated))).
  assert (E : map_to_list ({["/a" := 5; "/b" := 9; "/c" := 1]} : gmap string Z)
              = [("/c", 1); ("/a", 5); ("/b", 9)]) by (vm_compute; reflexivity).
  rewrite E.
  apply (Permutation_cons_app [("/c", 1)] [("/b", 9)]). apply perm_swap.
Defined.

(** * More of the script *)

(** ** Key-wise sums and charges *)

Lemma dict_get_keywise_sum (a b : gmap string Z) k :
  dict_get (keywise_sum a b) k 0 = dict_get a k 0 + dict_get b k 0.
Proof.
  unfold dict_get, keywise_sum. rewrite lookup_union_with.
  destruct (a !! k), (b !! k); cbn; unfold id; lia.
Qed.

Lemma keywise_sum_empty_l (d : gmap string Z) : keywise_sum ∅ d = d.
Proof. now rewrite keywise_sum_comm, keywise_sum_empty_r. Qed.

(** Charging a customer after a merge, or before it, is the same. *)
Lemma keywise_sum_charge (a b : gmap string Z) k v :
  <[k := dict_get (keywise_sum a b) k 0 + v]> (keywise_sum a b)
  = keywise_sum a (<[k := dict_get b k 0 + v]> b).
Proof.
  apply map_eq. intros j. destruct (decide (k = j)) as [<- | Hne].
  - rewrite lookup_insert_eq, dict_get_keywise_sum.
    unfold keywise_sum. rewrite lookup_union_with, lookup_insert_eq.
    unfold dict_get. destruct (a !! k); cbn; f_equal; unfold id; lia.
  - rewrite lookup_insert_ne by assumption.
    unfold keywise_sum. rewrite !lookup_union_with.
    now rewrite lookup_insert_ne by assumption.
Qed.

(** The keys of a dict are among those of its sum with another, so
    laying the sum over the dict changes nothing. *)
Lemma keywise_sum_absorb (a b : gmap string Z) :
  keywise_sum a b ∪ a = keywise_sum a b.
Proof.
  apply map_eq. intros k. rewrite lookup_union. unfold keywise_sum.
  rewrite lookup_union_with. now destruct (a !! k), (b !! k).
Qed.

(** ** The loop is additive *)

Lemma locals_sum_init_r a : locals_sum a Locals.init = a.
Proof.
  destruct a as [t o cu pu]. unfold locals_sum. cbn.
  rewrite !keywise_sum_empty_r. f_equal; lia.
Qed.

Lemma locals_sum_init_l a : locals_sum Locals.init a = a.
Proof.
  destruct a as [t o cu pu]. unfold locals_sum. cbn.
  rewrite !keywise_sum_empty_l. reflexivity.
Qed.

Lemma locals_sum_comm a b : locals_sum a b = locals_sum b a.
Proof.
  unfold locals_sum.
  rewrite (keywise_sum_comm (Locals.customers_usage a)),
          (keywise_sum_comm (Locals.popular_urls a)).
  f_equal; lia.
Qed.

Lemma locals_sum_assoc a b c :
  locals_sum (locals_sum a b) c = locals_sum a (locals_sum b c).
Proof.
  unfold locals_sum. cbn. rewrite !keywise_sum_assoc. f_equal; lia.
Qed.

Lemma account_locals_sum a b r :
  account (locals_sum a b) r = locals_sum a (account b r).
Proof.
  unfold account, locals_sum.
  cbn [Locals.total_records Locals.total_offsite_requests
       Locals.customers_usage Locals.popular_urls].
  rewrite keywise_sum_charge.
  destruct (is_offsite (pr_netloc r)), (is_success (pr_http_code r));
    rewrite ?keywise_sum_charge; f_equal; lia.
Qed.

Lemma for_lines_locals_sum f : ∀ a b,
  for_lines f (locals_sum a b) = (d ← for_lines f b; Ok (locals_sum a d)).
Proof.
  induction f as [|l f IH]; intros a b; cbn [for_lines]; [reflexivity|].
  rewrite !loop_body_account. destruct (parse_record l) as [r|e]; [|reflexivity].
  cbn. rewrite account_locals_sum. apply IH.
Qed.

(** Running the loop from some locals is running it from scratch and
    adding what it finds. *)
Lemma for_lines_from f st :
  for_lines f st = (d ← for_lines f Locals.init; Ok (locals_sum st d)).
Proof.
  rewrite <- (locals_sum_init_r st) at 1. apply for_lines_locals_sum.
Qed.

Lemma for_lines_concat f1 f2 :
  for_lines (f1 ++ f2)%list Locals.init
  = (a ← for_lines f1 Locals.init;
     b ← for_lines f2 Locals.init;
     Ok (locals_sum a b)).
Proof.
  rewrite for_lines_app. destruct (for_lines f1 Locals.init) as [a|e]; [|reflexivity].
  cbn. apply for_lines_from.
Qed.

Lemma parse_log_file_ok f (h : heap) r h' :
  parse_log_file f h = Ok (r, h') ↔
  ∃ st, for_lines f Locals.init = Ok st
        ∧ r = mkLogResults
                [Locals.total_offsite_requests st; Locals.total_records st]
                (List.length h) (S (List.length h))
        ∧ h' = (h ++ [Locals.customers_usage st; Locals.popular_urls st])%list.
Proof.
  rewrite parse_log_file_unfold.
  destruct (for_lines f Locals.init) as [st|e]; split.
  - intros [= <- <-]. now exists st.
  - intros (st' & [= <-] & -> & ->). reflexivity.
  - discriminate.
  - intros (st' & [=] & _).
Qed.

Lemma deref_app_r2 (h : heap) d1 d2 :
  deref (h ++ [d1; d2])%list (S (List.length h)) = d2.
Proof.
  unfold deref. rewrite lookup_app_r by lia.
  now replace (S (List.length h) - List.length h)%nat with 1%nat by lia.
Qed.

(** X1: the result for two sequences of lines put end to end is the sum
    of the results for each: counters add up and both maps are the
    key-wise sums. *)
Theorem parse_log_file_app f1 f2 (h : heap) r1 h1 r2 h2 :
  parse_log_file f1 h = Ok (r1, h1) →
  parse_log_file f2 h = Ok (r2, h2) →
  ∃ r h' o1 t1 o2 t2,
    parse_log_file (f1 ++ f2)%list h = Ok (r, h')
    ∧ requests r1 = [o1; t1] ∧ requests r2 = [o2; t2]
    ∧ requests r = [o1 + o2; t1 + t2]
    ∧ deref h' (customer_usage r)
      = keywise_sum (deref h1 (customer_usage r1)) (deref h2 (customer_usage r2))
    ∧ deref h' (popular_urls r)
      = keywise_sum (deref h1 (popular_urls r1)) (deref h2 (popular_urls r2)).
Proof.
  intros H1 H2.
  apply parse_log_file_ok in H1 as (a & Ha & -> & ->).
  apply parse_log_file_ok in H2 as (b & Hb & -> & ->).
  eexists _, _, _, _, _, _. split.
  - apply parse_log_file_ok. exists (locals_sum a b).
    split; [|split; reflexivity].
    rewrite for_lines_concat, Ha. cbn. now rewrite Hb.
  - cbn [requests customer_usage popular_urls].
    rewrite !deref_app_l, !deref_app_r2.
    split; [reflexivity|]. split; [reflexivity|].
    split; [|split; reflexivity].
    reflexivity.
Qed.

Lemma parse_log_file_app_witness :
  ∃ r h', parse_log_file (file_alice ++ file_bob)%list initial_heap = Ok (r, h')
          ∧ deref h' (customer_usage r) = {["alice" := 10; "bob" := 20]}.
Proof.
  destruct (parse_log_file_app file_alice file_bob initial_heap
              _ _ _ _ eq_refl eq_refl)
    as (r & h' & o1 & t1 & o2 & t2 & H & _ & _ & _ & Hcu & _).
  exists r, h'. split; [exact H|]. rewrite Hcu. vm_compute. reflexivity.
Defined.

(** ** The order of the lines *)

Lemma account_as_sum st r :
  account st r = locals_sum st (account Locals.init r).
Proof. rewrite <- account_locals_sum. now rewrite locals_sum_init_r. Qed.

Lemma account_swap st r1 r2 :
  account (account st r1) r2 = account (account st r2) r1.
Proof.
  rewrite (account_as_sum (account st r1) r2), (account_as_sum st r1).
  rewrite (account_as_sum (account st r2) r1), (account_as_sum st r2).
  rewrite !locals_sum_assoc.
  now rewrite (locals_sum_comm (account Locals.init r1)).
Qed.

Lemma for_lines_permutation f f' :
  f ≡ₚ f' → ∀ st st', for_lines f st = Ok st' → for_lines f' st = Ok st'.
Proof.
  induction 1 as [|l f f' _ IH|l1 l2 f|f f' f'' _ IH1 _ IH2]; intros st st' H.
  - exact H.
  - cbn [for_lines] in *. destruct (loop_body st l) as [st1|e]; [|discriminate].
    cbn in *. now apply IH.
  - cbn [for_lines] in H |- *.
    apply rbind_ok in H as (s1 & H1 & H). apply rbind_ok in H as (s2 & H2 & H).
    apply loop_body_ok in H1 as (ra & Hra & ->).
    apply loop_body_ok in H2 as (rb & Hrb & ->).
    assert (E1 : loop_body st l1 = Ok (account st rb))
      by (apply loop_body_ok; eauto).
    assert (E2 : loop_body (account st rb) l2 = Ok (account (account st rb) ra))
      by (apply loop_body_ok; eauto).
    rewrite E1. simpl. rewrite E2. simpl. now rewrite account_swap.
  - apply IH2, IH1, H.
Qed.

(** X2: the result of a file does not depend on the order of its lines:
    when a file parses, any rearrangement of its lines parses to the same
    result. *)
Theorem parse_log_file_permutation f f' (h : heap) r h' :
  f ≡ₚ f' →
  parse_log_file f h = Ok (r, h') →
  parse_log_file f' h = Ok (r, h').
Proof.
  intros Hperm H. apply parse_log_file_ok in H as (st & Hst & -> & ->).
  apply parse_log_file_ok. exists st. split; [|split; reflexivity].
  now apply (for_lines_permutation f f' Hperm).
Qed.

Lemma parse_log_file_permutation_witness :
  ∃ r h',
    parse_log_file (file_alice ++ file_bob)%list initial_heap = Ok (r, h')
    ∧ parse_log_file (file_bob ++ file_alice)%list initial_heap = Ok (r, h').
Proof.
  eexists _, _. split; [reflexivity|].
  apply (parse_log_file_permutation (file_alice ++ file_bob)%list).
  - apply Permutation_app_comm.
  - reflexivity.
Defined.

(** ** What the counters and the frequency map count *)

Lemma count_records_nil p : count_records p [] = 0.
Proof. reflexivity. Qed.

Lemma count_records_cons p r rs :
  count_records p (r :: rs) = (if p r then 1 else 0) + count_records p rs.
Proof.
  unfold count_records. cbn [List.filter].
  destruct (p r); cbn [List.length];
    generalize (List.length (List.filter p rs)); intros n; lia.
Qed.

Lemma count_records_nonneg p rs : 0 ≤ count_records p rs.
Proof. unfold count_records. apply Nat2Z.is_nonneg. Qed.

Lemma count_records_pos p rs :
  0 < count_records p rs ↔ ∃ r, r ∈ rs ∧ p r = true.
Proof.
  induction rs as [|r rs IH].
  - split; [intros H; vm_compute in H; discriminate H
           | intros (r & Hr & _); now apply elem_of_nil in Hr].
  - rewrite count_records_cons. pose proof (count_records_nonneg p rs).
    destruct (p r) eqn:E.
    + split; [intros _; exists r; split; [left | exact E] | lia].
    + split.
      * intros Hpos. destruct (proj1 IH ltac:(lia)) as (r' & Hr' & Hp).
        exists r'. split; [now right | exact Hp].
      * intros (r' & [-> | Hr']%elem_of_cons & Hp); [congruence|].
        assert (0 < count_records p rs) by (apply IH; eauto). lia.
Qed.

Lemma for_lines_counts f : ∀ st st',
  for_lines f st = Ok st' →
  ∃ rs,
    Forall2 (λ line r, parse_record line = Ok r) f rs
    ∧ Locals.total_offsite_requests st'
      = Locals.total_offsite_requests st
        + count_records (λ r, is_offsite (pr_netloc r)) rs
    ∧ (∀ url,
        dict_get (Locals.popular_urls st') url 0
        = dict_get (Locals.popular_urls st) url 0 + count_records (hits url) rs)
    ∧ (∀ url,
        url ∈ dom (Locals.popular_urls st')
        ↔ url ∈ dom (Locals.popular_urls st) ∨ ∃ r, r ∈ rs ∧ hits url r = true)
    ∧ (∀ customer,
        customer ∈ dom (Locals.customers_usage st')
        ↔ customer ∈ dom (Locals.customers_usage st)
          ∨ ∃ r, r ∈ rs ∧ pr_username r = customer).
Proof.
  induction f as [|l f IH]; intros st st' H; cbn [for_lines] in H.
  - injection H as <-. exists []. split; [constructor|].
    split; [rewrite count_records_nil; lia|].
    split; [intros; rewrite count_records_nil; lia|].
    split; intros k; (split; [now left|]);
      (intros [?|(r & Hr & _)]; [assumption | now apply elem_of_nil in Hr]).
  - apply rbind_ok in H as (st1 & H1 & H2).
    apply loop_body_ok in H1 as (r & Hr & ->).
    apply IH in H2 as (rs & Hrs & Hoff & Hfreq & Hurls & Hcust).
    exists (r :: rs). split; [now constructor|].
    cbn [account Locals.total_offsite_requests Locals.popular_urls
         Locals.customers_usage] in *.
    split; [|split; [|split]].
    + rewrite Hoff, count_records_cons.
      destruct (is_offsite (pr_netloc r)); lia.
    + intros url. rewrite Hfreq, count_records_cons.
      set (c := count_records (hits url) rs). unfold hits.
      destruct (is_success (pr_http_code r)); cbn [andb]; [|lia].
      rewrite dict_get_charge.
      destruct (String.eqb_spec (pr_request r) url) as [E | E].
      * rewrite decide_True by exact E. lia.
      * rewrite decide_False by exact E. lia.
    + intros url. rewrite Hurls. unfold hits.
      destruct (is_success (pr_http_code r)) eqn:Es.
      * rewrite dom_insert_L, elem_of_union, elem_of_singleton. split.
        -- intros [[-> | Hd] | (r' & Hr' & Hh)].
           ++ right. exists r. split; [left|]. rewrite Es. cbn.
              apply String.eqb_refl.
           ++ now left.
           ++ right. exists r'. split; [now right | exact Hh].
        -- intros [Hd | (r' & [-> | Hr']%elem_of_cons & Hh)].
           ++ left. now right.
           ++ left. left. rewrite Es in Hh. cbn in Hh.
              apply String.eqb_eq in Hh. now symmetry.
           ++ right. eauto.
      * split.
        -- intros [Hd | (r' & Hr' & Hh)]; [now left|].
           right. exists r'. split; [now right | exact Hh].
        -- intros [Hd | (r' & [-> | Hr']%elem_of_cons & Hh)].
           ++ now left.
           ++ rewrite Es in Hh. discriminate Hh.
           ++ right. eauto.
    + intros customer. rewrite Hcust.
      rewrite dom_insert_L, elem_of_union, elem_of_singleton. split.
      * intros [[-> | Hd] | (r' & Hr' & Hu)].
        -- right. exists r. split; [left | reflexivity].
        -- now left.
        -- right. exists r'. split; [now right | exact Hu].
      * intros [Hd | (r' & [-> | Hr']%elem_of_cons & Hu)].
        -- left. now right.
        -- left. left. now symmetry.
        -- right. eauto.
Qed.

(** X3: in the result of a file, the off-site counter is the number of
    records whose referrer is off-site, the total is the number of
    records, and the frequency of a URL is the number of successful
    records that request it. *)
Theorem parse_log_file_counts f (h : heap) r h' :
  parse_log_file f h = Ok (r, h') →
  ∃ rs,
    Forall2 (λ line rec, parse_record line = Ok rec) f rs
    ∧ requests r
      = [count_records (λ rec, is_offsite (pr_netloc rec)) rs;
         Z.of_nat (List.length rs)]
    ∧ ∀ url,
        dict_get (deref h' (popular_urls r)) url 0 = count_records (hits url) rs.
Proof.
  intros H. apply parse_log_file_ok in H as (st & Hst & -> & ->).
  destruct (for_lines_counts f _ _ Hst) as (rs & Hrs & Hoff & Hfreq & _).
  destruct (for_lines_counters f _ _ Hst) as (Ht & _).
  exists rs. split; [exact Hrs|].
  cbn [requests popular_urls]. rewrite deref_app_r2. split.
  - rewrite Hoff, Ht. cbn [Locals.init Locals.total_offsite_requests
                            Locals.total_records].
    rewrite <- (Forall2_length _ _ _ Hrs). now rewrite !Z.add_0_l.
  - intros url. rewrite Hfreq. cbn [Locals.init Locals.popular_urls].
    unfold dict_get at 1. rewrite lookup_empty. cbn. lia.
Qed.

Lemma parse_log_file_counts_witness :
  ∃ rs r h',
    parse_log_file (file_alice ++ file_carol)%list initial_heap = Ok (r, h')
    ∧ requests r = [count_records (λ rec, is_offsite (pr_netloc rec)) rs; 2].
Proof.
  destruct (parse_log_file_counts (file_alice ++ file_carol)%list initial_heap
              _ _ eq_refl) as (rs & Hrs & Hreq & _).
  exists rs. eexists _, _. split; [reflexivity|].
  rewrite Hreq. apply Forall2_length in Hrs. rewrite <- Hrs. reflexivity.
Defined.

(** X4: the keys of the two maps of a result: a customer has an entry
    exactly when some record of the file names it (be it for zero
    bytes), a URL has an entry exactly when some record requests it
    successfully, and then its frequency is at least one. *)
Theorem parse_log_file_keys f (h : heap) r h' :
  parse_log_file f h = Ok (r, h') →
  ∃ rs,
    Forall2 (λ line rec, parse_record line = Ok rec) f rs
    ∧ (∀ customer,
        customer ∈ dom (deref h' (customer_usage r))
        ↔ ∃ rec, rec ∈ rs ∧ pr_username rec = customer)
    ∧ (∀ url,
        url ∈ dom (deref h' (popular_urls r))
        ↔ ∃ rec, rec ∈ rs ∧ hits url rec = true)
    ∧ (∀ url n, deref h' (popular_urls r) !! url = Some n → 1 ≤ n).
Proof.
  intros H. apply parse_log_file_ok in H as (st & Hst & -> & ->).
  destruct (for_lines_counts f _ _ Hst) as (rs & Hrs & _ & Hfreq & Hurls & Hcust).
  exists rs. split; [exact Hrs|].
  cbn [customer_usage popular_urls]. rewrite deref_app_l, deref_app_r2.
  cbn [Locals.init Locals.popular_urls Locals.customers_usage] in *.
  split; [|split].
  - intros customer. rewrite Hcust, dom_empty_L. split.
    + intros [Hd | Hr]; [now apply not_elem_of_empty in Hd | exact Hr].
    + now right.
  - intros url. rewrite Hurls, dom_empty_L. split.
    + intros [Hd | Hr]; [now apply not_elem_of_empty in Hd | exact Hr].
    + now right.
  - intros url n Hn.
    assert (Hin : url ∈ dom (Locals.popular_urls st))
      by (apply elem_of_dom; eauto).
    apply Hurls in Hin as [Hd | Hr];
      [rewrite dom_empty_L in Hd; now apply not_elem_of_empty in Hd|].
    apply count_records_pos in Hr.
    specialize (Hfreq url). unfold dict_get in Hfreq at 1 2.
    rewrite Hn, lookup_empty in Hfreq. cbn in Hfreq. unfold id in Hfreq. lia.
Qed.

Lemma parse_log_file_keys_witness :
  ∃ r h',
    parse_log_file
      [log_line "GET /bob/b HTTP/1.1" "404" "0" "-"] initial_heap = Ok (r, h')
    ∧ "bob" ∈ dom (deref h' (customer_usage r)).
Proof.
  destruct (parse_log_file_keys
              [log_line "GET /bob/b HTTP/1.1" "404" "0" "-"] initial_heap
              _ _ eq_refl) as (rs & Hrs & Hcust & _).
  eexists _, _. split; [reflexivity|].
  apply Hcust. apply Forall2_cons_inv_l in Hrs as (rec & rs' & Hrec & _ & ->).
  exists rec. split; [left|].
  vm_compute in Hrec. injection Hrec as <-. reflexivity.
Defined.

(** ** Blank lines *)

Lemma lex_blank s :
  PyStr.all (λ c, PyStr.char_in c shlex.whitespace) s = true →
  shlex.lex s shlex.st_space "" false " " = Ok [].
Proof.
  induction s as [|c s IH]; [reflexivity|].
  cbn [PyStr.all]. intros H. apply andb_true_iff in H as [Hc Hs].
  cbn [shlex.lex shlex.st_space]. rewrite Ascii.eqb_refl, Hc. cbn.
  now apply IH.
Qed.

(** X5: a line made of blanks only (spaces, tabs, carriage returns,
    newlines; the empty line included) has no tokens, so it raises
    [IndexError]; a file that holds such a line after lines that parse
    makes [parse_log_file] raise [IndexError]. *)
Theorem blank_line_raises_IndexError (line : string) :
  PyStr.all (λ c, PyStr.char_in c shlex.whitespace) line = true →
  shlex.split line = Ok []
  ∧ parse_record line = Raise IndexError
  ∧ ∀ good rest st (h : heap),
      for_lines good Locals.init = Ok st →
      parse_log_file (good ++ line :: rest)%list h = Raise IndexError.
Proof.
  intros Hblank.
  assert (Hsplit : shlex.split line = Ok []) by now apply lex_blank.
  assert (Hrec : parse_record line = Raise IndexError)
    by (unfold parse_record; now rewrite Hsplit).
  split; [exact Hsplit|]. split; [exact Hrec|].
  intros good rest st h Hgood. apply parse_log_file_raise.
  now apply (for_lines_first_failure good line rest Locals.init st).
Qed.

Lemma blank_line_raises_IndexError_witness :
  parse_log_file (file_bob ++ [nl])%list initial_heap = Raise IndexError.
Proof.
  refine (proj2 (proj2 (blank_line_raises_IndexError nl eq_refl))
            file_bob [] _ initial_heap eq_refl).
Defined.

(** ** [parse_log_file] and the store *)

(** X6: [parse_log_file] builds its result in two dicts of its own: the
    store it finds is kept as it is, the result refers to the two dicts
    added at its end, and so it shares nothing with the default dicts
    of [LogResults] or with any earlier result. *)
Theorem parse_log_file_fresh f (h : heap) r h' :
  parse_log_file f h = Ok (r, h') →
  List.length h' = (List.length h + 2)%nat
  ∧ customer_usage r = List.length h
  ∧ popular_urls r = S (List.length h)
  ∧ (∀ l, (l < List.length h)%nat → deref h' l = deref h l)
  ∧ ((2 ≤ List.length h)%nat →
     customer_usage r ≠ default_customer_usage
     ∧ customer_usage r ≠ default_popular_urls
     ∧ popular_urls r ≠ default_customer_usage
     ∧ popular_urls r ≠ default_popular_urls).
Proof.
  intros H. apply parse_log_file_ok in H as (st & _ & -> & ->).
  cbn [customer_usage popular_urls].
  split; [rewrite length_app; reflexivity|].
  split; [reflexivity|]. split; [reflexivity|]. split.
  - intros l Hl. unfold deref. now rewrite lookup_app_l.
  - unfold default_customer_usage, default_popular_urls. lia.
Qed.

Lemma parse_log_file_fresh_witness :
  ∃ r h', parse_log_file file_bob initial_heap = Ok (r, h')
          ∧ deref h' default_customer_usage = ∅.
Proof.
  eexists _, _. split; [reflexivity|].
  rewrite (proj1 (proj2 (proj2 (proj2
             (parse_log_file_fresh file_bob initial_heap _ _ eq_refl))))).
  - reflexivity.
  - unfold default_customer_usage, initial_heap. cbn. lia.
Defined.

(** ** [reduce_records]: errors, frame, order of the arguments *)

Lemma reduce_records_short rec1 rec2 (h : heap) :
  (List.length (requests rec1) < 2)%nat ∨ (List.length (requests rec2) < 2)%nat →
  reduce_records rec1 rec2 h = Raise IndexError.
Proof.
  intros Hshort. unfold reduce_records. rewrite M_bind_unfold.
  destruct (sum_dicts_total (customer_usage LogResults_new)
              (customer_usage rec1) (customer_usage rec2) h) as (h1 & ->).
  destruct (requests rec1) as [|a0 [|a1 ra]], (requests rec2) as [|b0 [|b1 rb]];
    cbn in Hshort; try lia; reflexivity.
Qed.

Lemma two_counters (l : list Z) :
  (List.length l < 2)%nat ∨ ∃ x0 x1 rest, l = x0 :: x1 :: rest.
Proof.
  destruct l as [|x0 [|x1 rest]]; cbn; [left; lia | left; lia | right; eauto].
Qed.

(** X7: [reduce_records] raises exactly when one of the two records has
    fewer than two counters, and the exception is [IndexError]. *)
Theorem reduce_records_raises_iff rec1 rec2 (h : heap) e :
  reduce_records rec1 rec2 h = Raise e
  ↔ ((List.length (requests rec1) < 2)%nat ∨ (List.length (requests rec2) < 2)%nat)
    ∧ e = IndexError.
Proof.
  split.
  - intros H.
    destruct (two_counters (requests rec1)) as [H1 | (a0 & a1 & ra & Ha)].
    { rewrite reduce_records_short in H by now left.
      injection H as <-. split; [now left | reflexivity]. }
    destruct (two_counters (requests rec2)) as [H2 | (b0 & b1 & rb & Hb)].
    { rewrite reduce_records_short in H by now right.
      injection H as <-. split; [now right | reflexivity]. }
    destruct (reduce_records_requests rec1 rec2 h _ _ _ _ _ _ Ha Hb) as (h' & E).
    congruence.
  - intros [Hshort ->]. now apply reduce_records_short.
Qed.

(** X8: [reduce_records] allocates nothing and writes to the two default
    dicts only: its result refers to them, every other dict of the store,
    those of its arguments included, is as before. *)
Theorem reduce_records_frame rec1 rec2 (h : heap) r h' :
  (2 ≤ List.length h)%nat →
  reduce_records rec1 rec2 h = Ok (r, h') →
  List.length h' = List.length h
  ∧ customer_usage r = default_customer_usage
  ∧ popular_urls r = default_popular_urls
  ∧ ∀ l, l ≠ default_customer_usage → l ≠ default_popular_urls →
         deref h' l = deref h l.
Proof.
  intros Hlen H.
  destruct (two_counters (requests rec1)) as [H1 | (a0 & a1 & ra & Ha)];
    [rewrite reduce_records_short in H by (now left); discriminate|].
  destruct (two_counters (requests rec2)) as [H2 | (b0 & b1 & rb & Hb)];
    [rewrite reduce_records_short in H by (now right); discriminate|].
  rewrite (reduce_records_store rec1 rec2 h _ _ _ _ _ _ Ha Hb Hlen) in H.
  injection H as <- <-. cbn [customer_usage popular_urls].
  split; [now rewrite !length_insert|].
  split; [reflexivity|]. split; [reflexivity|].
  intros l H0 H1. unfold default_customer_usage, default_popular_urls in *.
  rewrite deref_insert by (rewrite length_insert; lia).
  rewrite decide_False by congruence.
  rewrite deref_insert by lia.
  now rewrite decide_False by congruence.
Qed.

Lemma reduce_records_frame_witness :
  ∃ r h',
    reduce_records (mkLogResults [0; 1] 2%nat 3%nat) (mkLogResults [0; 1] 4%nat 5%nat)
      (initial_heap ++ [{["alice" := 10]}; ∅; {["bob" := 20]}; ∅])%list
    = Ok (r, h')
    ∧ List.length h' = 6%nat.
Proof.
  destruct (reduce_records_requests
              (mkLogResults [0; 1] 2%nat 3%nat) (mkLogResults [0; 1] 4%nat 5%nat)
              (initial_heap ++ [{["alice" := 10]}; ∅; {["bob" := 20]}; ∅])%list
              0 1 [] 0 1 [] eq_refl eq_refl) as (h' & E).
  eexists _, h'. split; [exact E|].
  refine (eq_trans (proj1 (reduce_records_frame _ _ _ _ h' _ E)) eq_refl).
  cbn. lia.
Defined.

Lemma reduce_records_raises_iff_witness :
  reduce_records (mkLogResults [5] 2%nat 3%nat) LogResults_new initial_heap
  = Raise IndexError.
Proof.
  apply (proj2 (reduce_records_raises_iff _ _ _ _)).
  split; [left; cbn; lia | reflexivity].
Defined.

(** X9: on any store, [reduce_records] gives the same result and the same
    store for its two arguments in either order, whatever the arguments
    share with each other or with the default dicts. *)
Theorem reduce_records_comm rec1 rec2 (h : heap) :
  (2 ≤ List.length h)%nat →
  reduce_records rec1 rec2 h = reduce_records rec2 rec1 h.
Proof.
  intros Hlen.
  destruct (two_counters (requests rec1)) as [H1 | (a0 & a1 & ra & Ha)].
  { now rewrite !reduce_records_short by auto. }
  destruct (two_counters (requests rec2)) as [H2 | (b0 & b1 & rb & Hb)].
  { now rewrite !reduce_records_short by auto. }
  rewrite (reduce_records_store rec1 rec2 h _ _ _ _ _ _ Ha Hb Hlen).
  rewrite (reduce_records_store rec2 rec1 h _ _ _ _ _ _ Hb Ha Hlen).
  cbv zeta.
  rewrite (keywise_sum_comm (deref h (customer_usage rec2))).
  rewrite (keywise_sum_comm (deref _ (popular_urls rec2))).
  now rewrite (Z.add_comm b0), (Z.add_comm b1).
Qed.

Lemma reduce_records_comm_witness :
  reduce_records (mkLogResults [0; 1] 2%nat 3%nat) LogResults_new
    (initial_heap ++ [{["alice" := 10]}; ∅])%list
  = reduce_records LogResults_new (mkLogResults [0; 1] 2%nat 3%nat)
      (initial_heap ++ [{["alice" := 10]}; ∅])%list.
Proof. apply reduce_records_comm. cbn. lia. Defined.

(** ** The fold of the main program *)

(** One step of the fold: the aggregate lives in the default dicts, the
    record merged into it owns its dicts. *)
Lemma reduce_records_accumulate agg rec2 (h : heap) a0 a1 ra b0 b1 rb :
  requests agg = a0 :: a1 :: ra →
  requests rec2 = b0 :: b1 :: rb →
  customer_usage agg = default_customer_usage →
  popular_urls agg = default_popular_urls →
  (2 ≤ customer_usage rec2)%nat → (2 ≤ popular_urls rec2)%nat →
  (2 ≤ List.length h)%nat →
  ∃ h',
    reduce_records agg rec2 h
    = Ok (mkLogResults [a0 + b0; a1 + b1]
            default_customer_usage default_popular_urls, h')
    ∧ List.length h' = List.length h
    ∧ deref h' default_customer_usage
      = keywise_sum (deref h default_customer_usage) (deref h (customer_usage rec2))
    ∧ deref h' default_popular_urls
      = keywise_sum (deref h default_popular_urls) (deref h (popular_urls rec2)).
Proof.
  intros Ha Hb Hcu Hpu H2c H2p Hlen.
  eexists. split; [exact (reduce_records_store _ _ h _ _ _ _ _ _ Ha Hb Hlen)|].
  rewrite Hcu, Hpu. unfold default_customer_usage, default_popular_urls in *.
  assert (Hlen1 : ∀ d : gmap string Z, (1 < List.length (<[0%nat := d]> h))%nat)
    by (intros; rewrite length_insert; lia).
  split; [now rewrite !length_insert|].
  rewrite !(deref_insert _ 1%nat) by apply Hlen1.
  rewrite !(deref_insert _ 0%nat) by lia.
  repeat case_decide; try lia.
  now rewrite !keywise_sum_absorb.
Qed.

Lemma for_log_files_totals log_files : ∀ agg (h : heap) acc ra,
  Forall (Forall (λ line, is_ok (parse_record line) = true)) log_files →
  requests agg
  = Locals.total_offsite_requests acc :: Locals.total_records acc :: ra →
  customer_usage agg = default_customer_usage →
  popular_urls agg = default_popular_urls →
  (2 ≤ List.length h)%nat →
  deref h default_customer_usage = Locals.customers_usage acc →
  deref h default_popular_urls = Locals.popular_urls acc →
  ∃ agg' h' st,
    for_log_files log_files agg h = Ok (agg', h')
    ∧ for_lines (concat log_files) acc = Ok st
    ∧ customer_usage agg' = default_customer_usage
    ∧ popular_urls agg' = default_popular_urls
    ∧ deref h' default_customer_usage = Locals.customers_usage st
    ∧ deref h' default_popular_urls = Locals.popular_urls st
    ∧ (log_files = [] → agg' = agg)
    ∧ (log_files ≠ [] →
       requests agg'
       = [Locals.total_offsite_requests st; Locals.total_records st]).
Proof.
  induction log_files as [|f log_files IH];
    intros agg h acc ra Hall Hreq Hcu Hpu Hlen Hd0 Hd1.
  - exists agg, h, acc. cbn [for_log_files concat for_lines].
    repeat split; auto. congruence.
  - apply Forall_cons in Hall as [Hf Hall].
    destruct (for_lines_ok f Hf Locals.init) as (d & Hd).
    cbn [for_log_files concat]. rewrite M_bind_unfold, parse_log_file_unfold, Hd.
    rewrite M_bind_unfold.
    set (r := mkLogResults _ _ _). set (h1 := (h ++ _)%list).
    assert (Hlen1 : (2 ≤ List.length h1)%nat)
      by (unfold h1; rewrite length_app; lia).
    destruct (reduce_records_accumulate agg r h1 _ _ _ _ _ [] Hreq eq_refl Hcu Hpu)
      as (h2 & -> & Hlen2 & Hc2 & Hp2);
      [cbn; lia | cbn; lia | exact Hlen1 |].
    assert (Hold : ∀ l, (l < List.length h)%nat → deref h1 l = deref h l)
      by (intros l Hl; unfold h1, deref; now rewrite lookup_app_l).
    rewrite !Hold in Hc2, Hp2
      by (unfold default_customer_usage, default_popular_urls; lia).
    unfold r in Hc2, Hp2. cbn [customer_usage popular_urls] in Hc2, Hp2.
    unfold h1 in Hc2, Hp2. rewrite deref_app_l in Hc2. rewrite deref_app_r2 in Hp2.
    rewrite Hd0 in Hc2. rewrite Hd1 in Hp2.
    destruct (IH (mkLogResults
                    [Locals.total_offsite_requests acc + Locals.total_offsite_requests d;
                     Locals.total_records acc + Locals.total_records d]
                    default_customer_usage default_popular_urls)
                h2 (locals_sum acc d) [] Hall)
      as (agg' & h' & st & Hrun & Hst & Hc' & Hp' & Hdc & Hdp & Hnil & Hcons);
      [reflexivity | reflexivity | reflexivity | lia | exact Hc2 | exact Hp2 |].
    exists agg', h', st. split; [exact Hrun|]. split.
    { rewrite for_lines_app, for_lines_from, Hd. exact Hst. }
    repeat split; auto; [discriminate|].
    intros _. destruct log_files as [|f' log_files'].
    + rewrite (Hnil eq_refl). cbn [requests].
      cbn [concat for_lines] in Hst. injection Hst as <-. reflexivity.
    + apply Hcons. discriminate.
Qed.

(** The fold of the main program from the store of a freshly loaded
    module. *)
Lemma main_aggregate_sum (log_files : list (list string)) :
  Forall (Forall (λ line, is_ok (parse_record line) = true)) log_files →
  ∃ agg h' st,
    main_aggregate log_files initial_heap = Ok (agg, h')
    ∧ for_lines (concat log_files) Locals.init = Ok st
    ∧ deref h' (customer_usage agg) = Locals.customers_usage st
    ∧ deref h' (popular_urls agg) = Locals.popular_urls st
    ∧ (log_files = [] → requests agg = [0; 0; 0])
    ∧ (log_files ≠ [] →
       requests agg = [Locals.total_offsite_requests st; Locals.total_records st]).
Proof.
  intros Hall. unfold main_aggregate.
  destruct (for_log_files_totals log_files LogResults_new initial_heap
              Locals.init [0] Hall)
    as (agg & h' & st & Hrun & Hst & Hc & Hp & Hdc & Hdp & Hnil & Hcons);
    try reflexivity.
  exists agg, h', st. rewrite Hc, Hp.
  repeat split; auto. intros E. now rewrite (Hnil E).
Qed.

(** X10: the main loop computes, over all the files, what [parse_log_file]
    would compute on all their lines put end to end: when every line of
    every file parses, the aggregate holds those usages and frequencies
    and, if there is at least one file, those two counters; with no file
    at all it is the initial [LogResults()] with counters [(0, 0, 0)]. *)
Theorem main_aggregate_totals (log_files : list (list string)) :
  Forall (Forall (λ line, is_ok (parse_record line) = true)) log_files →
  ∃ agg h' st,
    main_aggregate log_files initial_heap = Ok (agg, h')
    ∧ for_lines (concat log_files) Locals.init = Ok st
    ∧ deref h' (customer_usage agg) = Locals.customers_usage st
    ∧ deref h' (popular_urls agg) = Locals.popular_urls st
    ∧ (log_files = [] → requests agg = [0; 0; 0])
    ∧ (log_files ≠ [] →
       requests agg = [Locals.total_offsite_requests st; Locals.total_records st]).
Proof. apply main_aggregate_sum. Qed.

Lemma main_aggregate_totals_witness :
  ∃ agg h',
    main_aggregate [file_alice; file_bob; file_alice] initial_heap = Ok (agg, h')
    ∧ deref h' (customer_usage agg) = {["alice" := 20; "bob" := 20]}.
Proof.
  destruct (main_aggregate_totals [file_alice; file_bob; file_alice])
    as (agg & h' & st & Hrun & Hst & Hcu & _).
  - repeat constructor.
  - exists agg, h'. split; [exact Hrun|]. rewrite Hcu.
    vm_compute in Hst. injection Hst as <-. vm_compute. reflexivity.
Defined.

(** ** [log_files_in_directory] *)

Lemma append_cancel_l (a s t : string) : a ++ s = a ++ t → s = t.
Proof.
  induction a as [|c a IH]; [now rewrite !append_nil_l|].
  rewrite !append_cons. intros [= H]. now apply IH.
Qed.

Lemma os_path_join_relative a b :
  PyStr.startswith b "/" = false →
  ∃ prefix, os_path_join a b = prefix ++ b ∧ (prefix = a ∨ prefix = a ++ "/").
Proof.
  intros Hb. unfold os_path_join. rewrite Hb.
  destruct (String.eqb a "" || endswith_char a "/")%bool.
  - exists a. auto.
  - exists (a ++ "/"). now rewrite append_assoc; auto.
Qed.

Lemma os_path_join_inj a b1 b2 :
  PyStr.startswith b1 "/" = false →
  PyStr.startswith b2 "/" = false →
  os_path_join a b1 = os_path_join a b2 → b1 = b2.
Proof.
  intros H1 H2. unfold os_path_join. rewrite H1, H2.
  destruct (String.eqb a "" || endswith_char a "/")%bool; intros H.
  - now apply append_cancel_l in H.
  - apply append_cancel_l in H. now apply (append_cancel_l "/") in H.
Qed.

(** X12: [log_files_in_directory] returns one path for every entry of the
    directory whose name does not start with a dot, and for no other;
    the path of an entry is the directory name, a slash unless the
    directory name is empty or ends with one, and the entry name; and
    distinct entries give distinct paths. *)
Theorem log_files_in_directory_paths (listdir : string → list string)
    (dir_name : string) :
  Forall (λ name, PyStr.startswith name "/" = false) (listdir dir_name) →
  (∀ path,
      path ∈ log_files_in_directory listdir dir_name
      ↔ ∃ name, name ∈ listdir dir_name
                ∧ PyStr.startswith name "." = false
                ∧ path = os_path_join dir_name name)
  ∧ (∀ name,
      name ∈ listdir dir_name →
      ∃ prefix, os_path_join dir_name name = prefix ++ name
                ∧ (prefix = dir_name ∨ prefix = dir_name ++ "/"))
  ∧ (NoDup (listdir dir_name) → NoDup (log_files_in_directory listdir dir_name)).
Proof.
  intros Hrel. rewrite Forall_forall in Hrel. split; [|split].
  - intros path. unfold log_files_in_directory.
    rewrite list_elem_of_In, in_map_iff. split.
    + intros (name & <- & Hin). apply filter_In in Hin as [Hin Hdot].
      exists name. rewrite list_elem_of_In.
      split; [exact Hin|]. split; [|reflexivity].
      now apply negb_true_iff in Hdot.
    + intros (name & Hin & Hdot & ->). exists name. split; [reflexivity|].
      apply filter_In. rewrite list_elem_of_In in Hin.
      split; [exact Hin|]. now rewrite Hdot.
  - intros name Hin. apply os_path_join_relative. now apply Hrel.
  - intros Hnd. unfold log_files_in_directory.
    apply NoDup_ListNoDup. apply NoDup_ListNoDup in Hnd.
    apply List.NoDup_map_NoDup_ForallPairs; [|now apply List.NoDup_filter].
    intros n1 n2 H1 H2. apply filter_In in H1 as [H1 _], H2 as [H2 _].
    apply os_path_join_inj; apply Hrel; now apply list_elem_of_In.
Qed.

Lemma log_files_in_directory_paths_witness :
  log_files_in_directory (λ _, ["access.log"; ".hidden"; "old.log"]) "/var/log"
  = ["/var/log/access.log"; "/var/log/old.log"]
  ∧ NoDup (log_files_in_directory
             (λ _, ["access.log"; ".hidden"; "old.log"]) "/var/log").
Proof.
  split; [reflexivity|].
  apply (log_files_in_directory_paths
           (λ _, ["access.log"; ".hidden"; "old.log"]) "/var/log").
  - repeat constructor.
  - apply (bool_decide_unpack _). vm_compute. exact I.
Defined.

(** ** The main program *)

Lemma float_overflows_0 : float_overflows 0 = false.
Proof. vm_compute. reflexivity. Qed.

Lemma float_overflows_mono o t :
  0 ≤ o ≤ t → float_overflows o = true → float_overflows t = true.
Proof.
  unfold float_overflows. intros H Ho.
  apply Z.leb_le in Ho. apply Z.leb_le. lia.
Qed.



Lemma main_eval (argv : list string) listdir lines_of url_items usage_items
    dir_name :
  argv !! 1%nat = Some dir_name →
  Forall (Forall (λ line, is_ok (parse_record line) = true))
    (List.map lines_of (log_files_in_directory listdir dir_name)) →
  ∃ st,
    for_lines (concat (List.map lines_of (log_files_in_directory listdir dir_name)))
      Locals.init = Ok st
    ∧ main argv listdir lines_of url_items usage_items
      = if float_overflows (Locals.total_records st) then OverflowError
        else if Locals.total_records st =? 0 then ZeroDivisionError
        else
          match print_usage (usage_items (Locals.customers_usage st)) with
          | (printed, true) =>
              Report (Locals.total_offsite_requests st) (Locals.total_records st)
                (main_popular_urls (url_items (Locals.popular_urls st))) printed
          | (printed, false) =>
              PartialReport (Locals.total_offsite_requests st)
                (Locals.total_records st)
                (main_popular_urls (url_items (Locals.popular_urls st))) printed
          end.
Proof.
  intros Hdir Hall.
  destruct (main_aggregate_sum _ Hall)
    as (agg & h' & st & Hrun & Hst & Hcu & Hpu & Hnil & Hcons).
  exists st. split; [exact Hst|]. unfold main.
  pose proof (lookup_lt_Some _ _ _ Hdir) as Hlen.
  apply Nat.ltb_ge in Hlen. rewrite Hlen.
  apply py_index_ok in Hdir. rewrite Hdir. cbv zeta. rewrite Hrun, Hcu, Hpu.
  destruct (List.map lines_of (log_files_in_directory listdir dir_name))
    as [|f files] eqn:E.
  - rewrite (Hnil eq_refl). cbn [concat for_lines] in Hst. injection Hst as <-.
    change (py_index [0; 0; 0] 0) with (Ok (A:=Z) 0).
    change (py_index [0; 0; 0] 1) with (Ok (A:=Z) 0).
    cbn [Locals.init Locals.total_records].
    rewrite float_overflows_0. reflexivity.
  - rewrite Hcons by discriminate.
    set (o := Locals.total_offsite_requests st).
    set (t := Locals.total_records st).
    change (py_index [o; t] 0) with (Ok o).
    change (py_index [o; t] 1) with (Ok t).
    destruct (for_lines_counters _ _ _ Hst) as (Ht & Ho1 & Ho2).
    cbn [Locals.init Locals.total_records Locals.total_offsite_requests] in Ht, Ho1, Ho2.
    fold o in Ho1, Ho2. fold t in Ht.
    destruct (float_overflows o) eqn:Eo; [|reflexivity].
    rewrite (float_overflows_mono o t); [reflexivity | lia | exact Eo].
Qed.

(** X14: when the directory holds no line to read (no entry, hidden
    entries only, or empty files only), the script ends with
    [ZeroDivisionError] on its percentage instead of a report. *)
Theorem main_no_line_ZeroDivisionError (argv : list string) listdir lines_of
    url_items usage_items dir_name :
  argv !! 1%nat = Some dir_name →
  Forall (λ path, lines_of path = []) (log_files_in_directory listdir dir_name) →
  main argv listdir lines_of url_items usage_items = ZeroDivisionError.
Proof.
  intros Hdir Hempty.
  assert (Hfiles : Forall (λ f : list string, f = [])
                     (List.map lines_of (log_files_in_directory listdir dir_name))).
  { induction Hempty as [|p ps Hp _ IH]; cbn [List.map]; constructor; auto. }
  assert (Hconcat : concat (List.map lines_of
                              (log_files_in_directory listdir dir_name)) = []).
  { induction Hfiles as [|f fs -> _ IH]; [reflexivity | exact IH]. }
  destruct (main_eval argv listdir lines_of url_items usage_items dir_name Hdir)
    as (st & Hst & ->).
  - eapply Forall_impl; [exact Hfiles|]. intros f ->. constructor.
  - rewrite Hconcat in Hst. cbn [for_lines] in Hst. injection Hst as <-.
    cbn [Locals.init Locals.total_records].
    rewrite float_overflows_0. reflexivity.
Qed.

Lemma main_no_line_ZeroDivisionError_witness :
  main ["apache_log_parser.py"; "/var/log"] (λ _, [".hidden"]) (λ _, file_bob)
    map_to_list map_to_list
  = ZeroDivisionError.
Proof.
  apply (main_no_line_ZeroDivisionError
           ["apache_log_parser.py"; "/var/log"] (λ _, [".hidden"]) (λ _, file_bob)
           map_to_list map_to_list "/var/log" eq_refl).
  constructor.
Defined.



Lemma main_raises_on_bad_line (argv : list string) listdir lines_of
    url_items usage_items dir_name path line :
  argv !! 1%nat = Some dir_name →
  path ∈ log_files_in_directory listdir dir_name →
  line ∈ lines_of path →
  is_ok (parse_record line) = false →
  ∃ e, main argv listdir lines_of url_items usage_items = Uncaught e.
Proof.
  intros Hdir Hpath Hline Hbad. unfold main.
  pose proof (lookup_lt_Some _ _ _ Hdir) as Hlen.
  apply Nat.ltb_ge in Hlen. rewrite Hlen.
  apply py_index_ok in Hdir. rewrite Hdir. cbv zeta.
  apply list_elem_of_split in Hpath as (before & after & ->).
  rewrite List.map_app. cbn [List.map]. unfold main_aggregate.
  destruct (for_log_files_raise (List.map lines_of before) (lines_of path)
              (List.map lines_of after)) with (aggregate_results := LogResults_new)
              (h := initial_heap) as (e & ->).
  - intros h. destruct (parse_record line) as [r|e] eqn:E; [discriminate|].
    destruct (for_lines_raise_member (lines_of path) line e Locals.init Hline E)
      as (e' & He').
    exists e'. now apply parse_log_file_raise.
  - now exists e.
Qed.

(** X16: when some line of some file that is not hidden does not parse,
    the script ends with an uncaught exception and reports nothing. *)
Theorem main_uncaught (argv : list string) listdir lines_of url_items usage_items
    dir_name path line :
  argv !! 1%nat = Some dir_name →
  path ∈ log_files_in_directory listdir dir_name →
  line ∈ lines_of path →
  is_ok (parse_record line) = false →
  ∃ e, main argv listdir lines_of url_items usage_items = Uncaught e.
Proof. apply main_raises_on_bad_line. Qed.

Lemma main_uncaught_witness :
  ∃ e, main ["apache_log_parser.py"; "logs"] (λ _, ["a.log"])
         (λ _, [log_line "GET /bob/b HTTP/1.1" "304" "-" "-"])
         map_to_list map_to_list = Uncaught e.
Proof.
  apply (main_uncaught ["apache_log_parser.py"; "logs"] (λ _, ["a.log"])
           (λ _, [log_line "GET /bob/b HTTP/1.1" "304" "-" "-"])
           map_to_list map_to_list "logs" "logs/a.log"
           (log_line "GET /bob/b HTTP/1.1" "304" "-" "-") eq_refl).
  - left.
  - left.
  - reflexivity.
Defined.




(** ** The order of the files *)

Lemma concat_permutation (fs fs' : list (list string)) :
  fs ≡ₚ fs' → concat fs ≡ₚ concat fs'.
Proof.
  induction 1 as [|f fs fs' _ IH|f1 f2 fs|fs fs' fs'' _ IH1 _ IH2];
    cbn [concat].
  - reflexivity.
  - now apply Permutation_app_head.
  - rewrite !app_assoc. apply Permutation_app_tail, Permutation_app_comm.
  - now rewrite IH1.
Qed.

(** X11: the aggregate of the main loop does not depend on the order in
    which the files are listed: when every line parses, the files taken
    in any other order give the same counters, usages and frequencies. *)
Theorem main_aggregate_permutation (log_files log_files' : list (list string)) :
  Forall (Forall (λ line, is_ok (parse_record line) = true)) log_files →
  log_files ≡ₚ log_files' →
  ∃ agg h agg' h',
    main_aggregate log_files initial_heap = Ok (agg, h)
    ∧ main_aggregate log_files' initial_heap = Ok (agg', h')
    ∧ contents h agg = contents h' agg'.
Proof.
  intros Hall Hperm.
  assert (Hall' : Forall (Forall (λ line, is_ok (parse_record line) = true))
                    log_files') by now rewrite <- Hperm.
  destruct (main_aggregate_sum log_files Hall)
    as (agg & h & st & Hrun & Hst & Hcu & Hpu & Hnil & Hcons).
  destruct (main_aggregate_sum log_files' Hall')
    as (agg' & h' & st' & Hrun' & Hst' & Hcu' & Hpu' & Hnil' & Hcons').
  exists agg, h, agg', h'. split; [exact Hrun|]. split; [exact Hrun'|].
  apply (for_lines_permutation _ _ (concat_permutation _ _ Hperm)) in Hst.
  assert (st = st') as <- by congruence.
  unfold contents. rewrite Hcu, Hpu, Hcu', Hpu'. f_equal. f_equal.
  destruct log_files as [|f fs].
  - assert (log_files' = []) as -> by now apply Permutation.Permutation_nil.
    now rewrite (Hnil eq_refl), (Hnil' eq_refl).
  - rewrite Hcons by discriminate. rewrite Hcons'; [reflexivity|].
    intros ->. symmetry in Hperm.
    now apply Permutation.Permutation_nil in Hperm.
Qed.

Lemma main_aggregate_permutation_witness :
  ∃ agg h agg' h',
    main_aggregate [file_alice; file_bob] initial_heap = Ok (agg, h)
    ∧ main_aggregate [file_bob; file_alice] initial_heap = Ok (agg', h')
    ∧ contents h agg = contents h' agg'.
Proof.
  apply main_aggregate_permutation.
  - repeat constructor.
  - apply perm_swap.
Defined.

(** ** The report of the most popular URLs *)

(** X17: no URL is reported twice, and when the frequency map has no more
    entries than the limit the report holds all of them. *)
Theorem top_urls_distinct_and_complete
    (url_frequency : gmap string Z) (items : list (string * Z)) (limit : nat) :
  items ≡ₚ map_to_list url_frequency →
  NoDup (top_urls limit items).*1
  ∧ ((size url_frequency ≤ limit)%nat → top_urls limit items ≡ₚ items).
Proof.
  intros Hperm. unfold top_urls. split.
  - assert (Hnd : NoDup (sorted_desc items).*1).
    { rewrite sorted_desc_perm, Hperm. apply NoDup_fst_map_to_list. }
    rewrite <- (take_drop limit (sorted_desc items)), fmap_app in Hnd.
    now apply NoDup_app in Hnd as [Hnd _].
  - intros Hsize. rewrite take_ge; [apply sorted_desc_perm|].
    rewrite (Permutation_length (sorted_desc_perm items)),
            (Permutation_length Hperm), length_map_to_list. exact Hsize.
Qed.

Lemma top_urls_distinct_and_complete_witness :
  NoDup (top_urls 10 (map_to_list ({["/a" := 5; "/b" := 9]} : gmap string Z))).*1.
Proof.
  apply (top_urls_distinct_and_complete {["/a" := 5; "/b" := 9]}).
  reflexivity.
Defined.

(** ** Requests without a referrer *)

Lemma find_from_none s c :
  PyStr.char_in c s = false → PyStr.find_from s c 0 = None.
Proof.
  induction s as [|d s IH]; [reflexivity|].
  cbn [PyStr.char_in PyStr.find_from]. rewrite orb_false_iff. intros [Hd Hs].
  rewrite Ascii.eqb_sym, Hd, (IH Hs). reflexivity.
Qed.

Lemma take2_startswith s :
  String.eqb (PyStr.take 2 s) "//" = PyStr.startswith s "//".
Proof.
  destruct s as [|c1 [|c2 s]]; cbn [PyStr.take PyStr.startswith String.eqb];
    reflexivity.
Qed.

(** X18: a record whose referrer holds no colon and does not start with
    two slashes (the [-] of a request without referrer, for one) has an
    empty network location and is counted as off-site. *)
Theorem no_referrer_is_offsite (st : Locals.t) (line : string) (r : ParsedRecord) :
  parse_record line = Ok r →
  PyStr.char_in ":" (pr_referrer r) = false →
  PyStr.startswith (pr_referrer r) "//" = false →
  pr_netloc r = ""
  ∧ ∃ st', loop_body st line = Ok st'
           ∧ Locals.total_offsite_requests st'
             = Locals.total_offsite_requests st + 1.
Proof.
  intros Hr Hcolon Hslash.
  assert (Hn : pr_netloc r = "").
  { apply parse_record_inv in Hr as (toks & _ & _ & _ & Hn).
    unfold urlparse.netloc, urlparse.strip_scheme in Hn.
    rewrite (find_from_none _ _ Hcolon), take2_startswith, Hslash in Hn.
    now injection Hn as <-. }
  split; [exact Hn|].
  exists (account st r). split; [apply loop_body_ok; eauto|].
  cbn [account Locals.total_offsite_requests]. now rewrite Hn.
Qed.

Lemma no_referrer_is_offsite_witness :
  ∃ st', loop_body Locals.init (log_line "GET /bob/b HTTP/1.1" "200" "20" "-")
         = Ok st'
         ∧ Locals.total_offsite_requests st' = 1.
Proof.
  destruct (no_referrer_is_offsite Locals.init
              (log_line "GET /bob/b HTTP/1.1" "200" "20" "-")
              _ eq_refl eq_refl eq_refl) as (_ & st' & H & Hoff).
  exists st'. split; [exact H | exact Hoff].
Defined.

(** ** The merge on a store with empty default dicts *)

Lemma reduce_records_pristine_witness :
  ∃ r h',
    reduce_records (mkLogResults [0; 1] 2%nat 3%nat) (mkLogResults [1; 1] 4%nat 5%nat)
      (initial_heap ++ [{["alice" := 10]}; {["/alice/a" := 1]};
                        {["carol" := 30]}; {["/carol/c" := 1]}])%list
    = Ok (r, h')
    ∧ contents h' r
      = ([1; 2], {["alice" := 10; "carol" := 30]},
         {["/alice/a" := 1; "/carol/c" := 1]}).
Proof.
  destruct (reduce_records_pristine
              (mkLogResults [0; 1] 2%nat 3%nat) (mkLogResults [1; 1] 4%nat 5%nat)
              (initial_heap ++ [{["alice" := 10]}; {["/alice/a" := 1]};
                                {["carol" := 30]}; {["/carol/c" := 1]}])%list
              0 1 [] 1 1 [] eq_refl eq_refl)
    as (r & h' & H & Hc & _); try reflexivity; try (cbn; lia).
  exists r, h'. split; [exact H|]. rewrite Hc. vm_compute. reflexivity.
Defined.
